(** * Lighthouse sweep decoder ([tools/decodeV2.py])

    A shallow embedding of the decode pipeline: 24-bit wrap-around
    timestamp arithmetic, the sweep block and its finalisation
    ([SweepBlock.process]), the per-channel pairing of two sweeps
    ([BaseStation.push]), the angle model ([calculateAE]) and the pulse
    aggregator ([PulseProcessor.push]) together with the frame decoding
    of the main loop.

    Python integers are unbounded and are modelled by [Z]; Python floats
    are idealised as real numbers ([R]); an attribute that may hold
    [None] is an [option]; an exception is a [Raise] in a small error
    monad. *)

From Stdlib Require Import ZArith List Lia Bool Reals Lra.
From Stdlib Require Import Strings.Byte.
From stdpp Require Import base tactics option list.
Import ListNotations.

Local Open Scope Z_scope.

(** ** Exceptions *)

Inductive exn : Type := IndexError | AttributeError | TypeError.

Inductive result (A : Type) : Type :=
| Return (a : A)
| Raise (e : exn).
Arguments Return {A} a.
Arguments Raise {A} e.

#[global] Instance result_bind : MBind result :=
  fun A B (k : A -> result B) (m : result A) =>
    match m with
    | Return a => k a
    | Raise e => Raise e
    end.

(** [l[i]] of a Python list of length [n]: the slot read, or [IndexError].
    Negative indices count from the end. *)
Definition py_index (n : nat) (i : Z) : result nat :=
  if decide (0 <= i < Z.of_nat n) then Return (Z.to_nat i)
  else if decide (- Z.of_nat n <= i < 0) then Return (Z.to_nat (Z.of_nat n + i))
  else Raise IndexError.

Definition py_get {A : Type} (l : list A) (i : Z) : result A :=
  k ← py_index (length l) i;
  match l !! k with
  | Some x => Return x
  | None => Raise IndexError
  end.

(** Attribute access on a slot that may hold [None]. *)
Definition attr {A B : Type} (f : A -> B) (o : option A) : result B :=
  match o with
  | Some x => Return (f x)
  | None => Raise AttributeError
  end.

(** ** Timestamp arithmetic *)

Definition ts_sub (a b : Z) : Z := Z.land (a - b) 0x00ffffff.

Definition ts_add (a b : Z) : Z := Z.land (a + b) 0x00ffffff.

(** ** SweepData *)

Module SweepData.

Record t : Type := mk {
  ts : Z;
  width : Z;
  offset : Z;
  channel : option Z;
  slow_bit : option Z
}.

Definition set_identity (c s : option Z) (d : t) : t :=
  {| ts := ts d; width := width d; offset := offset d;
     channel := c; slow_bit := s |}.

Definition set_offset (o : Z) (d : t) : t :=
  {| ts := ts d; width := width d; offset := o;
     channel := channel d; slow_bit := slow_bit d |}.

End SweepData.

(** ** SweepBlock *)

Module SweepBlock.

(** [offset_sensor] is a reference to one of the objects held in
    [sensors]; a filled slot is never replaced, so the slot number
    names the object. *)
Record t : Type := mk {
  sensors : list (option SweepData.t);
  channel : option Z;
  ts : option Z;
  is_valid : bool;
  offset_sensor : option nat;
  slow_bit : option Z
}.

Definition new : t :=
  {| sensors := [None; None; None; None]; channel := None; ts := None;
     is_valid := false; offset_sensor := None; slow_bit := None |}.

Definition set_sensors (l : list (option SweepData.t)) (b : t) : t :=
  {| sensors := l; channel := channel b; ts := ts b;
     is_valid := is_valid b; offset_sensor := offset_sensor b;
     slow_bit := slow_bit b |}.

Definition set_identity (c s : option Z) (b : t) : t :=
  {| sensors := sensors b; channel := c; ts := ts b;
     is_valid := is_valid b; offset_sensor := offset_sensor b;
     slow_bit := s |}.

Definition set_offset_sensor (r : option nat) (b : t) : t :=
  {| sensors := sensors b; channel := channel b; ts := ts b;
     is_valid := is_valid b; offset_sensor := r;
     slow_bit := slow_bit b |}.

Definition set_ts (x : option Z) (b : t) : t :=
  {| sensors := sensors b; channel := channel b; ts := x;
     is_valid := is_valid b; offset_sensor := offset_sensor b;
     slow_bit := slow_bit b |}.

Definition set_valid (v : bool) (b : t) : t :=
  {| sensors := sensors b; channel := channel b; ts := ts b;
     is_valid := v; offset_sensor := offset_sensor b;
     slow_bit := slow_bit b |}.

(** [push]: refuses a slot that is already filled. *)
Definition push (self : t) (sensor ts width offset : Z)
    (channel slow_bit : option Z) : result (t * bool) :=
  k ← py_index (length (sensors self)) sensor;
  match sensors self !! k with
  | Some (Some _) => Return (self, false)
  | _ =>
      Return (set_sensors
                (<[k := Some (SweepData.mk ts width offset channel slow_bit)]>
                   (sensors self)) self, true)
  end.

(** First loop of [process]: every slot holds data. *)
Fixpoint all_present (l : list (option SweepData.t))
    : option (list SweepData.t) :=
  match l with
  | [] => Some []
  | None :: _ => None
  | Some d :: rest =>
      match all_present rest with
      | Some ds => Some (d :: ds)
      | None => None
      end
  end.

(** Second loop: count the decoded channels; the block takes channel
    and slow bit of the first one. The count is [None] when the loop
    left through its [return False]. *)
Fixpoint scan_channels (ds : list SweepData.t) (ch sb : option Z)
    (count : nat) : option Z * option Z * option nat :=
  match ds with
  | [] => (ch, sb, Some count)
  | d :: rest =>
      match SweepData.channel d with
      | None => scan_channels rest ch sb count
      | Some c =>
          let '(ch1, sb1) :=
            match ch with
            | None => (Some c, SweepData.slow_bit d)
            | Some _ => (ch, sb)
            end in
          if decide (Some c ≠ ch1) then (ch1, sb1, None)
          else scan_channels rest ch1 sb1 (S count)
      end
  end.

(** Fourth loop: the sensor with a nonzero offset, with its slot. The
    flag is [false] when a second one is met. *)
Fixpoint scan_offsets (ds : list SweepData.t) (i : nat)
    (cur : option (nat * SweepData.t))
    : option (nat * SweepData.t) * bool :=
  match ds with
  | [] => (cur, true)
  | d :: rest =>
      if decide (SweepData.offset d ≠ 0) then
        match cur with
        | Some _ => (cur, false)
        | None => scan_offsets rest (S i) (Some (i, d))
        end
      else scan_offsets rest (S i) cur
  end.

(** Fifth loop: offsets of the other sensors, from the reference. *)
Definition fill_offset (ref : SweepData.t) (d : SweepData.t) : SweepData.t :=
  if decide (SweepData.offset d = 0) then
    let ts_delta := ts_sub (SweepData.ts d) (SweepData.ts ref) in
    SweepData.set_offset (ts_add (SweepData.offset ref) ts_delta) d
  else d.

(** Last loop: [if not self.ts] holds for [None] and for [0]. *)
Definition first_ts (cur : option Z) (d : SweepData.t) : option Z :=
  let t := match cur with
           | None | Some 0 => SweepData.ts d
           | Some t => t
           end in
  Some (if decide (SweepData.ts d < t) then SweepData.ts d else t).

Definition process (self : t) : t * bool :=
  match all_present (sensors self) with
  | None => (self, false)
  | Some ds =>
      let '(ch, sb, count) := scan_channels ds (channel self) (slow_bit self) 0 in
      let self := set_identity ch sb self in
      match count with
      | None => (self, false)
      | Some n =>
          if decide (n ≠ 3%nat) then (self, false)
          else
            let ds := map (SweepData.set_identity ch sb) ds in
            let self := set_sensors (map Some ds) self in
            let '(ref, ok) := scan_offsets ds 0 None in
            let self := set_offset_sensor (fst <$> ref) self in
            if negb ok then (self, false)
            else
              match ref with
              | None => (self, false)
              | Some (_, r) =>
                  let ds := map (fill_offset r) ds in
                  let self := set_sensors (map Some ds) self in
                  let self := set_ts (fold_left first_ts ds (ts self)) self in
                  (set_valid true self, true)
              end
      end
  end.

End SweepBlock.

(** ** Angle model *)

(** [math.radians]: degrees times [pi / 180]. *)
Definition radians (x : R) : R := (x * (PI / 180))%R.

Definition calculateAE (firstBeam secondBeam : R) : R * R :=
  let azimuth := (((firstBeam + secondBeam) / 2) - PI)%R in
  let p := radians 60 in
  let beta := ((secondBeam - firstBeam) - radians 120)%R in
  let elevation := atan (sin (beta / 2) / tan (p / 2)) in
  (azimuth, elevation).

Definition PERIODS : list R :=
  [959000 / 2; 957000 / 2;
   953000 / 2; 949000 / 2;
   947000 / 2; 943000 / 2;
   941000 / 2; 939000 / 2;
   937000 / 2; 929000 / 2;
   919000 / 2; 911000 / 2;
   907000 / 2; 901000 / 2;
   893000 / 2; 887000 / 2]%R.

Module Angles.

Record t : Type := mk {
  data : list (option (R * R));
  channel : Z
}.

Definition new (channel : Z) : t :=
  {| data := [None; None; None; None]; channel := channel |}.

Definition set (self : t) (sensor : Z) (azimuth elevation : R) : result t :=
  k ← py_index (length (data self)) sensor;
  Return {| data := <[k := Some (azimuth, elevation)]> (data self);
            channel := channel self |}.

End Angles.

(** ** BaseStation *)

Module BaseStation.

Record t : Type := mk {
  channel : Z;
  prev_block : option SweepBlock.t
}.

Definition new (channel : Z) : t :=
  {| channel := channel; prev_block := None |}.

Definition set_prev_block (p : option SweepBlock.t) (self : t) : t :=
  {| channel := channel self; prev_block := p |}.

(** [b.ts - a.ts] on a block whose [ts] is still [None] is a
    [TypeError]. *)
Definition block_ts (b : SweepBlock.t) : result Z :=
  match SweepBlock.ts b with
  | Some x => Return x
  | None => Raise TypeError
  end.

Definition is_second_sweep (a b : SweepBlock.t) : result bool :=
  sa ← py_get (SweepBlock.sensors a) 0;
  oa ← attr SweepData.offset sa;
  sb ← py_get (SweepBlock.sensors b) 0;
  ob ← attr SweepData.offset sb;
  if decide (oa > ob) then Return false
  else
    tb ← block_ts b;
    ta ← block_ts a;
    let dt := ts_sub tb ta in
    if decide (dt > 220000) then Return false
    else Return true.

(** One turn of the loop of [process], for sensor slot [i]. *)
Definition process_sensor (self : t) (a b : SweepBlock.t)
    (acc : result Angles.t) (i : Z) : result Angles.t :=
  res ← acc;
  sa ← py_get (SweepBlock.sensors a) i;
  offset0 ← attr SweepData.offset sa;
  sb ← py_get (SweepBlock.sensors b) i;
  offset1 ← attr SweepData.offset sb;
  period ← py_get PERIODS (channel self);
  let firstBeam := ((IZR offset0 / period) * 2 * PI)%R in
  let secondBeam := ((IZR offset1 / period) * 2 * PI)%R in
  let '(azimuth, elevation) := calculateAE firstBeam secondBeam in
  Angles.set res i azimuth elevation.

Definition process (self : t) (a b : SweepBlock.t) : result Angles.t :=
  fold_left (process_sensor self a b) [0; 1; 2; 3]
    (Return (Angles.new (channel self))).

(** [push] gives the tracker after the call and what the call returns;
    an exception leaves the tracker as it was. *)
Definition push (self : t) (block : SweepBlock.t)
    : t * result (option Angles.t) :=
  if decide (SweepBlock.channel block ≠ Some (channel self)) then
    (self, Return None)
  else
    match prev_block self with
    | Some prev =>
        match is_second_sweep prev block with
        | Raise e => (self, Raise e)
        | Return true =>
            match process self prev block with
            | Raise e => (self, Raise e)
            | Return r => (set_prev_block None self, Return (Some r))
            end
        | Return false => (set_prev_block (Some block) self, Return None)
        end
    | None => (set_prev_block (Some block) self, Return None)
    end.

End BaseStation.

(** ** PulseProcessor *)

Module PulseProcessor.

Record t : Type := mk {
  block : option SweepBlock.t;
  latest_pulse : Z
}.

Definition new : t := {| block := None; latest_pulse := 0 |}.

(** The open block and the result after the timing-gap test. *)
Definition close_block (self : t) (ts : Z)
    : option SweepBlock.t * option SweepBlock.t :=
  let delta := ts_sub ts (latest_pulse self) in
  if decide (delta > 10000) then
    match block self with
    | Some b =>
        let '(b', ok) := SweepBlock.process b in
        (None, if ok then Some b' else None)
    | None => (None, None)
    end
  else (block self, None).

(** [push] gives the processor after the call and what the call
    returns. An index out of range raises in [SweepBlock.push], after
    [latest_pulse] and [block] were assigned. *)
Definition push (self : t) (sensor ts width offset : Z)
    (channel slow_bit : option Z) : t * result (option SweepBlock.t) :=
  let '(blk, res) := close_block self ts in
  let blk := match blk with
             | Some b => b
             | None => SweepBlock.new
             end in
  match SweepBlock.push blk sensor ts width offset channel slow_bit with
  | Raise e => ({| block := Some blk; latest_pulse := ts |}, Raise e)
  | Return (blk', true) =>
      ({| block := Some blk'; latest_pulse := ts |}, Return res)
  | Return (_, false) =>
      ({| block := None; latest_pulse := ts |}, Return res)
  end.

End PulseProcessor.

(** ** Main loop: frame decoding and routing *)

(** [struct.unpack("<I", bs)[0]]: four bytes, little endian. Any other
    length is a [struct.error], rendered here as [TypeError]. *)
Definition le_value (bs : list byte) : Z :=
  fold_right (fun b acc => Z.of_N (Byte.to_N b) + 256 * acc) 0 bs.

Definition unpack_I (bs : list byte) : result Z :=
  if decide (length bs = 4%nat) then Return (le_value bs)
  else Raise TypeError.

Record frame : Type := mkframe {
  f_sensor : Z;
  f_timestamp : Z;
  f_width : Z;
  f_offset_6 : Z;
  f_offset : Z;
  f_channel : option Z;
  f_slow_bit : option Z
}.

Definition decode (reading : list byte) : result frame :=
  timestamp ← unpack_I (drop 9 reading ++ [x00]);
  _ ← unpack_I (take 3 (drop 6 reading) ++ [x00]);
  offset_6 ← unpack_I (take 3 (drop 3 reading) ++ [x00]);
  first_word ← unpack_I (take 3 reading ++ [x00]);
  let offset := offset_6 * 4 in
  let sensor := Z.land first_word 0x03 in
  let width := Z.land (Z.shiftr first_word 8) 0xffff in
  let nPoly_ok := Z.land (Z.shiftr first_word 7) 0x01 =? 0 in
  let '(channel, slow_bit) :=
    if nPoly_ok then
      let identity := Z.land (Z.shiftr first_word 2) 0x1f in
      (Some (Z.shiftr identity 1), Some (Z.land identity 1))
    else (None, None) in
  Return {| f_sensor := sensor; f_timestamp := timestamp; f_width := width;
            f_offset_6 := offset_6; f_offset := offset;
            f_channel := channel; f_slow_bit := slow_bit |}.

Record main_state : Type := mkmain {
  pulse_processor : PulseProcessor.t;
  base_stations : list BaseStation.t
}.

Definition main_init : main_state :=
  {| pulse_processor := PulseProcessor.new;
     base_stations := map (fun i => BaseStation.new (Z.of_nat i)) (seq 0 16) |}.

(** [base_stations[block.channel].push(block)]. *)
Definition route (stations : list BaseStation.t) (block : SweepBlock.t)
    : list BaseStation.t * result (option Angles.t) :=
  match SweepBlock.channel block with
  | None => (stations, Raise TypeError)
  | Some c =>
      match py_index (length stations) c with
      | Raise e => (stations, Raise e)
      | Return k =>
          match stations !! k with
          | None => (stations, Raise IndexError)
          | Some bs =>
              let '(bs', r) := BaseStation.push bs block in
              (<[k := bs']> stations, r)
          end
      end
  end.

(** The body of the [while] loop for one 12-byte [reading]: the state
    after it and the angles it prints, if any. *)
Definition main_step (st : main_state) (reading : list byte)
    : main_state * result (option Angles.t) :=
  match decode reading with
  | Raise e => (st, Raise e)
  | Return f =>
      if decide (f_offset_6 f = 0xffffff) then (st, Return None)
      else
        let '(pp, r) :=
          PulseProcessor.push (pulse_processor st) (f_sensor f)
            (f_timestamp f) (f_width f) (f_offset f) (f_channel f)
            (f_slow_bit f) in
        match r with
        | Raise e =>
            ({| pulse_processor := pp; base_stations := base_stations st |},
             Raise e)
        | Return None =>
            ({| pulse_processor := pp; base_stations := base_stations st |},
             Return None)
        | Return (Some block) =>
            let '(stations, a) := route (base_stations st) block in
            ({| pulse_processor := pp; base_stations := stations |}, a)
        end
  end.

(** [while len(reading) == 12]: the readings of the stream in turn; the
    loop ends at the first short read or at an exception. Gives the last
    state, the angles printed, and the exception if one was raised. *)
Fixpoint main_loop (st : main_state) (stream : list (list byte))
    : main_state * list Angles.t * option exn :=
  match stream with
  | [] => (st, [], None)
  | reading :: rest =>
      if decide (length reading = 12%nat) then
        match main_step st reading with
        | (st', Raise e) => (st', [], Some e)
        | (st', Return out) =>
            let '(st'', outs, e) := main_loop st' rest in
            (st'', match out with Some a => a :: outs | None => outs end, e)
        end
      else (st, [], None)
  end.

(** ** Synchronisation *)

#[global] Instance byte_eq_decision : EqDecision byte := Byte.byte_eq_dec.

Definition sync : list byte :=
  [xff; xff; xff; xff; xff; xff; xff; xff; xff; xff; xff; xff].

(** The loop [while sync != syncBuffer] on the bytes that the source
    still holds: each turn reads one byte, appends it to the buffer and
    drops the oldest. Gives the bytes left when the buffer is [sync], or
    [None] when the source ends before (the program exits). *)
Fixpoint sync_scan (syncBuffer : list byte) (src : list byte)
    : option (list byte) :=
  if decide (sync = syncBuffer) then Some src
  else
    match src with
    | [] => None
    | b :: rest => sync_scan (drop 1 (syncBuffer ++ [b])) rest
    end.

(** The scan from its initial buffer, [[b'\x00'] * len(sync)]. *)
Definition find_sync (src : list byte) : option (list byte) :=
  sync_scan (replicate (length sync) x00) src.

(** ** Vocabulary of the properties *)

(** The data held in the filled slots of a block, in slot order. *)
Definition block_data (b : SweepBlock.t) : list SweepData.t :=
  omap (fun o => o) (SweepBlock.sensors b).

Definition has_identity (d : SweepData.t) : bool :=
  match SweepData.channel d with
  | Some _ => true
  | None => false
  end.

Definition has_offset (d : SweepData.t) : bool :=
  negb (SweepData.offset d =? 0).

Definition identity_count (ds : list SweepData.t) : nat :=
  length (List.filter has_identity ds).

Definition offset_count (ds : list SweepData.t) : nat :=
  length (List.filter has_offset ds).

(** The decoded identities carry one channel. *)
Definition channels_agree (ds : list SweepData.t) : Prop :=
  forall d d' c c', d ∈ ds -> d' ∈ ds ->
    SweepData.channel d = Some c -> SweepData.channel d' = Some c' -> c = c'.

(** The decoded identities carry one channel and one slow bit. *)
Definition identities_agree (ds : list SweepData.t) : Prop :=
  forall d d', d ∈ ds -> d' ∈ ds ->
    has_identity d = true -> has_identity d' = true ->
    SweepData.channel d = SweepData.channel d' /\
    SweepData.slow_bit d = SweepData.slow_bit d'.

(** The blocks that the constructor, [push] and [process] can produce. *)
Inductive reachable : SweepBlock.t -> Prop :=
| reachable_new : reachable SweepBlock.new
| reachable_push b sensor ts width offset channel slow_bit b' ok :
    reachable b ->
    SweepBlock.push b sensor ts width offset channel slow_bit = Return (b', ok) ->
    reachable b'
| reachable_process b :
    reachable b -> reachable (fst (SweepBlock.process b)).

(** A finalized block: what a successful [process] leaves. *)
Definition finalized (b : SweepBlock.t) : Prop :=
  exists b0, reachable b0 /\ SweepBlock.process b0 = (b, true).

(** The plain numeric minimum of a list of timestamps. *)
Definition minimum (x : Z) (xs : list Z) : Z := fold_left Z.min xs x.

(** The angular position of the plane at an offset within the period. *)
Definition beam (period : R) (offset : Z) : R :=
  ((IZR offset / period) * 2 * PI)%R.

(** The angle pair of one sensor slot, as the formula of the angle
    model gives it from the two offsets and the period. *)
Definition angle_formula (period : R) (offset0 offset1 : Z) : R * R :=
  let firstBeam := beam period offset0 in
  let secondBeam := beam period offset1 in
  (((firstBeam + secondBeam) / 2 - PI)%R,
   atan (sin (((secondBeam - firstBeam) - 2 * PI / 3) / 2) / tan (PI / 6))%R).

(** The processor states of the main loop: from [PulseProcessor()], by
    pushing the pulse of a decoded 12-byte frame that is no sync frame. *)
Inductive fed : PulseProcessor.t -> Prop :=
| fed_new : fed PulseProcessor.new
| fed_push pp reading f :
    fed pp ->
    length reading = 12%nat ->
    decode reading = Return f ->
    f_offset_6 f <> 0xffffff ->
    fed (fst (PulseProcessor.push pp (f_sensor f) (f_timestamp f) (f_width f)
                (f_offset f) (f_channel f) (f_slow_bit f))).

(** The derived fields of the block are as the constructor left them. *)
Definition unprocessed (b : SweepBlock.t) : Prop :=
  SweepBlock.channel b = None /\ SweepBlock.ts b = None /\
  SweepBlock.is_valid b = false.

(** Invariant of the reachable blocks: four slots, and a block that has
    left the [unprocessed] state is full and can not meet the
    conditions of finalisation again. *)
Definition block_inv (b : SweepBlock.t) : Prop :=
  length (SweepBlock.sensors b) = 4%nat /\
  (unprocessed b \/
   exists ds, SweepBlock.sensors b = map Some ds /\
     ~ (identity_count ds = 3%nat /\ channels_agree ds)).

(** A channel as the frame decoder gives it: none, or one of 0..15. *)
Definition channel_ok (o : option Z) : Prop :=
  match o with
  | None => True
  | Some c => 0 <= c <= 15
  end.

(** Invariant of the open block of the pulse processor. *)
Definition open_block_inv (pp : PulseProcessor.t) : Prop :=
  match PulseProcessor.block pp with
  | None => True
  | Some b =>
      length (SweepBlock.sensors b) = 4%nat /\ unprocessed b /\
      forall i d, SweepBlock.sensors b !! i = Some (Some d) ->
                  channel_ok (SweepData.channel d)
  end.

(** A valid block: marked valid, four filled slots, one channel in
    0..15 and one slow bit on the block and on every sensor. The offset
    of a sensor is an integer by its type. *)
Definition valid_block (b : SweepBlock.t) : Prop :=
  SweepBlock.is_valid b = true /\
  exists c s0 s1 s2 s3,
    0 <= c <= 15 /\
    SweepBlock.channel b = Some c /\
    SweepBlock.sensors b = [Some s0; Some s1; Some s2; Some s3] /\
    Forall (fun d => SweepData.channel d = Some c /\
                     SweepData.slow_bit d = SweepBlock.slow_bit b)
      [s0; s1; s2; s3].



(** [b.sensors[i].offset], where slot [i] is filled. *)
Definition sensor_offset (b : SweepBlock.t) (i : nat) : option Z :=
  match SweepBlock.sensors b !! i with
  | Some (Some d) => Some (SweepData.offset d)
  | _ => None
  end.

(** A block that a tracker can pair: four filled slots and a timestamp. *)
Definition pairable (b : SweepBlock.t) : Prop :=
  exists s0 s1 s2 s3 t,
    SweepBlock.sensors b = [Some s0; Some s1; Some s2; Some s3] /\
    SweepBlock.ts b = Some t.

(** Invariant of the trackers of the main loop: sixteen of them, number
    [k] on channel [k], each pending block pairable. *)
Definition stations_inv (l : list BaseStation.t) : Prop :=
  length l = 16%nat /\
  forall k bs, l !! k = Some bs ->
    BaseStation.channel bs = Z.of_nat k /\
    forall p, BaseStation.prev_block bs = Some p -> pairable p.

(** ** Example blocks *)

(** The arguments of one [push]. *)
Definition pulse : Type := (Z * Z * Z * Z * option Z * option Z)%type.

(** A block filled by a sequence of [push] calls. *)
Definition push_all (b : SweepBlock.t) (ps : list pulse) : SweepBlock.t :=
  fold_left
    (fun b '(sensor, ts, width, offset, channel, slow_bit) =>
       match SweepBlock.push b sensor ts width offset channel slow_bit with
       | Return (b', _) => b'
       | Raise _ => b
       end) ps b.

(** Three sensors decoded channel 3, sensor 1 carries the offset. *)
Definition good_block : SweepBlock.t :=
  push_all SweepBlock.new
    [(0, 1000, 50, 0, Some 3, Some 1);
     (1, 1010, 52, 4000, Some 3, Some 1);
     (2, 995, 49, 0, None, None);
     (3, 1020, 51, 0, Some 3, Some 1)].

(** Sensor 3 never reported. *)
Definition short_block : SweepBlock.t :=
  push_all SweepBlock.new
    [(0, 1000, 50, 0, Some 3, Some 1);
     (1, 1010, 52, 4000, Some 3, Some 1);
     (2, 995, 49, 0, None, None)].

(** Sensor 1 decoded another channel than sensors 0 and 3. *)
Definition mixed_channel_block : SweepBlock.t :=
  push_all SweepBlock.new
    [(0, 1000, 50, 0, Some 3, Some 1);
     (1, 1010, 52, 4000, Some 4, Some 1);
     (2, 995, 49, 0, None, None);
     (3, 1020, 51, 0, Some 3, Some 1)].

(** One channel, but sensor 1 decoded another slow bit. *)
Definition mixed_slow_bit_block : SweepBlock.t :=
  push_all SweepBlock.new
    [(0, 1000, 50, 0, Some 3, Some 1);
     (1, 1010, 52, 4000, Some 3, Some 0);
     (2, 995, 49, 0, None, None);
     (3, 1020, 51, 0, Some 3, Some 1)].

(** Sensor 0 has timestamp 0, the least of the four. *)
Definition zero_ts_block : SweepBlock.t :=
  push_all SweepBlock.new
    [(0, 0, 50, 0, Some 3, Some 1);
     (1, 5, 52, 4000, Some 3, Some 1);
     (2, 3, 49, 0, None, None);
     (3, 7, 51, 0, Some 3, Some 1)].

(** The pulse processor after a sequence of pulses. *)
Definition feed_pulses (pp : PulseProcessor.t) (ps : list pulse)
    : PulseProcessor.t :=
  fold_left
    (fun pp '(sensor, ts, width, offset, channel, slow_bit) =>
       fst (PulseProcessor.push pp sensor ts width offset channel slow_bit))
    ps pp.

(** The pulses of [zero_ts_block] as they arrive, by timestamp. *)
Definition zero_ts_processor : PulseProcessor.t :=
  feed_pulses PulseProcessor.new
    [(0, 0, 50, 0, Some 3, Some 1);
     (2, 3, 49, 0, None, None);
     (1, 5, 52, 4000, Some 3, Some 1);
     (3, 7, 51, 0, Some 3, Some 1)].

(** The second sweep of the revolution of [good_block]. *)
Definition later_block : SweepBlock.t :=
  push_all SweepBlock.new
    [(0, 101000, 50, 0, Some 3, Some 1);
     (1, 101010, 52, 104000, Some 3, Some 1);
     (2, 100995, 49, 0, None, None);
     (3, 101020, 51, 0, Some 3, Some 1)].

(** A sweep of the same channel, 300000 ticks after [good_block]. *)
Definition far_block : SweepBlock.t :=
  push_all SweepBlock.new
    [(0, 301000, 50, 0, Some 3, Some 1);
     (1, 301010, 52, 104000, Some 3, Some 1);
     (2, 300995, 49, 0, None, None);
     (3, 301020, 51, 0, Some 3, Some 1)].

Definition first_sweep : SweepBlock.t := fst (SweepBlock.process good_block).

Definition far_sweep : SweepBlock.t := fst (SweepBlock.process far_block).

Definition second_sweep : SweepBlock.t := fst (SweepBlock.process later_block).

(** ** Example frames *)

(** The four pulses of [good_block] as 12-byte frames: first word
    (sensor, identity 7 = channel 3 with slow bit 1, or the poly flag;
    width), offset in 6 MHz ticks, beam word, timestamp. *)
Definition frame_s0 : list byte :=
  [x1c; x32; x00;  x00; x00; x00;  x00; x00; x00;  xe8; x03; x00].
Definition frame_s1 : list byte :=
  [x1d; x34; x00;  xe8; x03; x00;  x00; x00; x00;  xf2; x03; x00].
Definition frame_s2 : list byte :=
  [x82; x31; x00;  x00; x00; x00;  x00; x00; x00;  xe3; x03; x00].
Definition frame_s3 : list byte :=
  [x1f; x33; x00;  x00; x00; x00;  x00; x00; x00;  xfc; x03; x00].

(** The four pulses of [later_block], the second sweep; [frame_t0] is at
    timestamp 101000. *)
Definition frame_t0 : list byte :=
  [x1c; x32; x00;  x00; x00; x00;  x00; x00; x00;  x88; x8a; x01].
Definition frame_t1 : list byte :=
  [x1d; x34; x00;  x90; x65; x00;  x00; x00; x00;  x92; x8a; x01].
Definition frame_t2 : list byte :=
  [x82; x31; x00;  x00; x00; x00;  x00; x00; x00;  x83; x8a; x01].
Definition frame_t3 : list byte :=
  [x1f; x33; x00;  x00; x00; x00;  x00; x00; x00;  x9c; x8a; x01].

(** A pulse long after both sweeps, at timestamp 1048576. *)
Definition frame_end : list byte :=
  [x1c; x32; x00;  x00; x00; x00;  x00; x00; x00;  x00; x00; x10].

(** One revolution on channel 3: both sweeps, each in the order of its
    timestamps, and the pulse that closes the second. *)
Definition revolution : list (list byte) :=
  [frame_s2; frame_s0; frame_s1; frame_s3;
   frame_t2; frame_t0; frame_t1; frame_t3; frame_end].

(** The pulse processor of the main loop after the four frames, read in
    the order of their timestamps. *)
Definition processor_after_sweep : PulseProcessor.t :=
  pulse_processor
    (fst (fst (main_loop main_init [frame_s2; frame_s0; frame_s1; frame_s3]))).

(** ** Vocabulary of the further properties *)

(** What [process] keeps of a slot: an empty slot stays empty, a pulse
    keeps its timestamp, its width and a nonzero offset. *)
Definition same_pulse (o o' : option SweepData.t) : Prop :=
  match o, o' with
  | None, None => True
  | Some d, Some d' =>
      SweepData.ts d' = SweepData.ts d /\
      SweepData.width d' = SweepData.width d /\
      (SweepData.offset d <> 0 -> SweepData.offset d' = SweepData.offset d)
  | _, _ => False
  end.

(** The first sensor, in slot order, that decoded an identity. *)
Definition first_decoded (b : SweepBlock.t) : option SweepData.t :=
  List.find has_identity (block_data b).

(** The byte of a number 0..255. *)
Definition byte_of (z : Z) : byte :=
  match Byte.of_N (Z.to_N z) with
  | Some b => b
  | None => x00
  end.

(** The three bytes of a 24-bit number, little endian. *)
Definition le_bytes3 (z : Z) : list byte :=
  [byte_of (z mod 256); byte_of (z / 256 mod 256); byte_of (z / 65536 mod 256)].

(** A 12-byte frame by the layout that the main loop reads: the first
    word holds the sensor in bits 0-1, the identity in bits 2-6, the
    poly flag in bit 7 and the width in bits 8-23; then the offset in
    6 MHz ticks, the beam word and the timestamp. *)
Definition frame_bytes (sensor identity npoly width offset_6 beam_word
    timestamp : Z) : list byte :=
  le_bytes3 (sensor + 4 * identity + 128 * npoly + 256 * width)
  ++ le_bytes3 offset_6 ++ le_bytes3 beam_word ++ le_bytes3 timestamp.

(** An angle result that [Angles.dump] can print: a pair of angles in
    each of the four slots, on a channel 0..15. *)
Definition angles_full (a : Angles.t) : Prop :=
  0 <= Angles.channel a <= 15 /\
  exists p0 p1 p2 p3, Angles.data a = [Some p0; Some p1; Some p2; Some p3].

(** The buffer of the scan after the bytes [c] were read: the last
    bytes of the buffer followed by [c]. *)
Definition window (buf c : list byte) : list byte :=
  drop (length c) (buf ++ c).

(** The timestamp of a pulse. *)
Definition pulse_ts (p : pulse) : Z :=
  let '(_, ts, _, _, _, _) := p in ts.

(** The sensor number of a pulse. *)
Definition pulse_sensor (p : pulse) : Z :=
  let '(sensor, _, _, _, _, _) := p in sensor.

(** Each pulse comes at most 10000 ticks, wrapping, after the one
    before; the first after the pulse at [t]. *)
Fixpoint in_window (t : Z) (ps : list pulse) : Prop :=
  match ps with
  | [] => True
  | p :: rest => ts_sub (pulse_ts p) t <= 10000 /\ in_window (pulse_ts p) rest
  end.

(** Each pulse is for a slot of the block that is empty when the pulse
    comes. *)
Fixpoint slots_free (b : SweepBlock.t) (ps : list pulse) : Prop :=
  match ps with
  | [] => True
  | p :: rest =>
      0 <= pulse_sensor p /\
      SweepBlock.sensors b !! Z.to_nat (pulse_sensor p) = Some None /\
      slots_free (push_all b [p]) rest
  end.

(** A stream with a run of twelve [0xff] after one byte. *)
Definition synced_stream : list byte := [x01] ++ sync ++ [x02; x03].

(** Membership in an explicit list, case by case. *)
Ltac elem_cases H :=
  repeat (apply elem_of_cons in H as [H|H]; [subst|]); [..|inversion H].

(** ** Wrap-around lemmas *)

Lemma land_24 (x : Z) : Z.land x 0x00ffffff = x mod 2 ^ 24.
Proof. change 0x00ffffff with (Z.ones 24). apply Z.land_ones. lia. Qed.

Lemma ts_sub_mod (a b : Z) : ts_sub a b = (a - b) mod 2 ^ 24.
Proof. apply land_24. Qed.

Lemma ts_add_mod (a b : Z) : ts_add a b = (a + b) mod 2 ^ 24.
Proof. apply land_24. Qed.

Lemma ts_sub_range (a b : Z) : 0 <= ts_sub a b < 2 ^ 24.
Proof. rewrite ts_sub_mod. apply Z.mod_pos_bound. lia. Qed.

Lemma ts_add_range (a b : Z) : 0 <= ts_add a b < 2 ^ 24.
Proof. rewrite ts_add_mod. apply Z.mod_pos_bound. lia. Qed.

(** C9: for 24-bit [a] and [b], subtracting [b] from the wrapping sum of
    [a] and [b] gives [a] back, and [ts_sub] of any two integers lies in
    [0, 2^24). *)
Theorem ts_sub_ts_add (a b : Z) :
  0 <= a < 2 ^ 24 -> 0 <= b < 2 ^ 24 ->
  ts_sub (ts_add a b) b = a /\ (forall x y : Z, 0 <= ts_sub x y < 2 ^ 24).
Proof.
  intros Ha Hb. split; [|apply ts_sub_range].
  rewrite ts_sub_mod, ts_add_mod, Zminus_mod_idemp_l.
  replace (a + b - b) with a by lia.
  apply Z.mod_small. exact Ha.
Qed.

Lemma ts_sub_ts_add_witness :
  (0 <= 16777215 < 2 ^ 24 /\ 0 <= 5 < 2 ^ 24) /\
  ts_sub (ts_add 16777215 5) 5 = 16777215 /\
  (forall x y : Z, 0 <= ts_sub x y < 2 ^ 24).
Proof. split; [lia | apply (ts_sub_ts_add 16777215 5); lia]. Defined.

(** ** The loops of [SweepBlock.process] *)

Lemma all_present_Some (l : list (option SweepData.t)) (ds : list SweepData.t) :
  SweepBlock.all_present l = Some ds <-> l = map Some ds.
Proof.
  revert ds. induction l as [|o l IH]; intros ds; simpl.
  - split; intros H.
    + injection H as <-. reflexivity.
    + destruct ds; [reflexivity | discriminate].
  - destruct o as [d|].
    + destruct (SweepBlock.all_present l) as [ds'|] eqn:E.
      * split; intros H.
        -- injection H as <-. simpl. f_equal. apply IH. reflexivity.
        -- destruct ds as [|d0 ds0]; [discriminate|]. simpl in H.
           injection H as -> H. apply IH in H. congruence.
      * split; intros H; [discriminate|].
        destruct ds as [|d0 ds0]; [discriminate|]. simpl in H.
        injection H as -> H. apply IH in H. discriminate.
    + split; intros H; [discriminate|].
      destruct ds; discriminate.
Qed.

Lemma all_present_None (l : list (option SweepData.t)) :
  SweepBlock.all_present l = None <-> None ∈ l.
Proof.
  induction l as [|o l IH]; simpl.
  - split; [discriminate | intros H; inversion H].
  - destruct o as [d|].
    + destruct (SweepBlock.all_present l) as [ds'|].
      * split; [discriminate|]. intros H.
        apply elem_of_cons in H as [H|H]; [discriminate|].
        apply IH in H. discriminate.
      * split; [|reflexivity]. intros _. apply elem_of_cons. right.
        apply IH. reflexivity.
    + split; [|reflexivity]. intros _. apply elem_of_cons. left. reflexivity.
Qed.

Lemma omap_map_Some (ds : list SweepData.t) :
  omap (fun o : option SweepData.t => o) (map Some ds) = ds.
Proof. induction ds as [|d ds IH]; simpl; [reflexivity | f_equal; exact IH]. Qed.

Lemma block_data_filled (b : SweepBlock.t) (ds : list SweepData.t) :
  SweepBlock.sensors b = map Some ds -> block_data b = ds.
Proof. intros H. unfold block_data. rewrite H. apply omap_map_Some. Qed.

Lemma identity_count_cons (d : SweepData.t) (ds : list SweepData.t) :
  identity_count (d :: ds) =
  ((if has_identity d then 1 else 0) + identity_count ds)%nat.
Proof. unfold identity_count. simpl. destruct (has_identity d); reflexivity. Qed.

Lemma offset_count_cons (d : SweepData.t) (ds : list SweepData.t) :
  offset_count (d :: ds) =
  ((if has_offset d then 1 else 0) + offset_count ds)%nat.
Proof. unfold offset_count. simpl. destruct (has_offset d); reflexivity. Qed.

Lemma has_offset_true (d : SweepData.t) :
  has_offset d = true <-> SweepData.offset d <> 0.
Proof.
  unfold has_offset. destruct (Z.eqb_spec (SweepData.offset d) 0) as [E|E];
    simpl; split; intros H; congruence.
Qed.

Lemma has_offset_false (d : SweepData.t) :
  has_offset d = false <-> SweepData.offset d = 0.
Proof.
  unfold has_offset. destruct (Z.eqb_spec (SweepData.offset d) 0) as [E|E];
    simpl; split; intros H; congruence.
Qed.

(** What the channel loop leaves when it runs to its end. *)
Lemma scan_channels_count ds ch sb n ch' sb' m :
  SweepBlock.scan_channels ds ch sb n = (ch', sb', Some m) ->
  m = (n + identity_count ds)%nat /\
  (forall d c, d ∈ ds -> SweepData.channel d = Some c -> ch' = Some c) /\
  (forall c, ch = Some c -> ch' = ch /\ sb' = sb) /\
  (identity_count ds = 0%nat -> ch' = ch /\ sb' = sb).
Proof.
  revert ch sb n. induction ds as [|d ds IH]; intros ch sb n H; simpl in H.
  - injection H as <- <- <-. unfold identity_count. simpl.
    repeat split; try lia; try reflexivity.
    intros d c Hd. inversion Hd.
  - rewrite identity_count_cons. unfold has_identity.
    destruct (SweepData.channel d) as [c|] eqn:Ec.
    + destruct ch as [c0|].
      * destruct (decide (Some c ≠ Some c0)) as [Hne|He]; [discriminate|].
        assert (c = c0) as ->
          by (destruct (decide (c = c0)) as [E|E];
              [exact E | exfalso; apply He; congruence]).
        apply IH in H as (Hm & Hall & Hkeep & _).
        destruct (Hkeep c0 eq_refl) as [-> ->].
        repeat split; try lia; try congruence.
        intros d' c' Hd' Hc'. apply elem_of_cons in Hd' as [->|Hd'].
        -- congruence.
        -- rewrite <- (Hall d' c' Hd' Hc'). reflexivity.
      * destruct (decide (Some c ≠ Some c)) as [Hne|_]; [congruence|].
        apply IH in H as (Hm & Hall & Hkeep & _).
        destruct (Hkeep c eq_refl) as [-> ->].
        repeat split; try lia; try congruence.
        intros d' c' Hd' Hc'. apply elem_of_cons in Hd' as [->|Hd'].
        -- congruence.
        -- rewrite <- (Hall d' c' Hd' Hc'). reflexivity.
    + apply IH in H as (Hm & Hall & Hkeep & Hzero).
      repeat split; try lia; try (eapply Hkeep; eassumption).
      * intros d' c' Hd' Hc'. apply elem_of_cons in Hd' as [->|Hd'].
        -- congruence.
        -- eapply Hall; eassumption.
      * apply Hzero. simpl in *. lia.
      * apply Hzero. simpl in *. lia.
Qed.

Lemma identity_count_pos (ds : list SweepData.t) :
  (0 < identity_count ds)%nat ->
  exists d c, d ∈ ds /\ SweepData.channel d = Some c.
Proof.
  induction ds as [|d ds IH]; [unfold identity_count; simpl; lia|].
  rewrite identity_count_cons. unfold has_identity.
  destruct (SweepData.channel d) as [c|] eqn:Ec; intros H.
  - exists d, c. split; [apply elem_of_cons; left; reflexivity | exact Ec].
  - destruct IH as (d' & c & Hd' & Hc); [simpl in H; lia|].
    exists d', c. split; [apply elem_of_cons; right; exact Hd' | exact Hc].
Qed.

(** The channel loop runs to its end when the decoded channels are one
    channel and the block has none yet, or has that one. *)
Lemma scan_channels_agree ds ch sb n c0 :
  (forall d c, d ∈ ds -> SweepData.channel d = Some c -> c = c0) ->
  ch = None \/ ch = Some c0 ->
  exists ch' sb',
    SweepBlock.scan_channels ds ch sb n = (ch', sb', Some (n + identity_count ds)%nat).
Proof.
  revert ch sb n. induction ds as [|d ds IH]; intros ch sb n Hall Hch; simpl.
  - exists ch, sb. unfold identity_count. simpl. do 2 f_equal. lia.
  - rewrite identity_count_cons. unfold has_identity.
    assert (Hall' : forall d' c, d' ∈ ds -> SweepData.channel d' = Some c -> c = c0)
      by (intros d' c Hd'; apply Hall, elem_of_cons; right; exact Hd').
    destruct (SweepData.channel d) as [c|] eqn:Ec.
    + assert (c = c0) as ->
        by (apply (Hall d); [apply elem_of_cons; left; reflexivity | exact Ec]).
      destruct Hch as [-> | ->];
        (destruct (decide (Some c0 ≠ Some c0)) as [Hne|_]; [congruence|]).
      * destruct (IH (Some c0) (SweepData.slow_bit d) (S n) Hall')
          as (ch' & sb' & E); [right; reflexivity|].
        exists ch', sb'. rewrite E. do 2 f_equal. lia.
      * destruct (IH (Some c0) sb (S n) Hall') as (ch' & sb' & E);
          [right; reflexivity|].
        exists ch', sb'. rewrite E. do 2 f_equal. lia.
    + destruct (IH ch sb n Hall' Hch) as (ch' & sb' & E).
      exists ch', sb'. rewrite E. reflexivity.
Qed.

(** What the offset loop leaves, by the number of nonzero offsets. *)
Lemma scan_offsets_spec ds i cur r ok :
  SweepBlock.scan_offsets ds i cur = (r, ok) ->
  match cur with
  | Some _ => r = cur /\ (ok = true <-> offset_count ds = 0%nat)
  | None =>
      match offset_count ds with
      | O => r = None /\ ok = true
      | S O => ok = true /\
               exists k d, r = Some (k, d) /\ (i <= k)%nat /\
                 ds !! (k - i)%nat = Some d /\ has_offset d = true
      | _ => ok = false /\ exists k d, r = Some (k, d)
      end
  end.
Proof.
  revert i cur. induction ds as [|d ds IH]; intros i cur H; simpl in H.
  - injection H as <- <-. destruct cur; unfold offset_count; simpl; tauto.
  - rewrite offset_count_cons.
    destruct (decide (SweepData.offset d ≠ 0)) as [Hd|Hd].
    + apply has_offset_true in Hd as Hd'. rewrite Hd'.
      destruct cur as [x|].
      * injection H as <- <-. split; [reflexivity|]. split; [discriminate|].
        simpl. lia.
      * apply IH in H. simpl in H. destruct H as [-> Hok].
        destruct (offset_count ds) as [|n] eqn:En; simpl.
        -- split; [apply Hok; reflexivity|].
           exists i, d. repeat split; try lia; try assumption.
           replace (i - i)%nat with 0%nat by lia. reflexivity.
        -- split; [|eauto]. destruct ok; [|reflexivity].
           destruct Hok as [Hok _]. specialize (Hok eq_refl). discriminate.
    + assert (has_offset d = false) as ->
        by (apply has_offset_false; destruct (decide (SweepData.offset d = 0));
            [assumption | contradiction]).
      apply IH in H. simpl. destruct cur as [x|]; [exact H|].
      destruct (offset_count ds) as [|[|n]]; [exact H | | exact H].
      destruct H as (Hok & k & d' & -> & Hk & Hl & Hd').
      split; [exact Hok|]. exists k, d'. repeat split; try lia; try assumption.
      replace (k - i)%nat with (S (k - S i)) by lia. exact Hl.
Qed.

(** ** Outcomes of [SweepBlock.process] *)

Lemma process_true (b b' : SweepBlock.t) :
  SweepBlock.process b = (b', true) <->
  exists ds ch sb k ref,
    SweepBlock.sensors b = map Some ds /\
    SweepBlock.scan_channels ds (SweepBlock.channel b) (SweepBlock.slow_bit b) 0
      = (ch, sb, Some 3%nat) /\
    SweepBlock.scan_offsets (map (SweepData.set_identity ch sb) ds) 0 None
      = (Some (k, ref), true) /\
    let ds' := map (SweepBlock.fill_offset ref)
                 (map (SweepData.set_identity ch sb) ds) in
    b' = {| SweepBlock.sensors := map Some ds';
            SweepBlock.channel := ch;
            SweepBlock.ts := fold_left SweepBlock.first_ts ds' (SweepBlock.ts b);
            SweepBlock.is_valid := true;
            SweepBlock.offset_sensor := Some k;
            SweepBlock.slow_bit := sb |}.
Proof.
  unfold SweepBlock.process. split.
  - destruct (SweepBlock.all_present (SweepBlock.sensors b)) as [ds|] eqn:Ea;
      [|discriminate].
    apply all_present_Some in Ea.
    destruct (SweepBlock.scan_channels ds _ _ _) as [[ch sb] [n|]] eqn:Ec;
      [|discriminate].
    destruct (decide (n ≠ 3%nat)) as [Hn|Hn]; [discriminate|].
    assert (n = 3%nat) as -> by lia.
    destruct (SweepBlock.scan_offsets _ _ _) as [[[k ref]|] ok] eqn:Eo;
      destruct ok; simpl; try discriminate.
    intros H. injection H as <-.
    exists ds, ch, sb, k, ref. repeat split; assumption.
  - intros (ds & ch & sb & k & ref & Hs & Hc & Ho & ->).
    apply all_present_Some in Hs. rewrite Hs, Hc.
    destruct (decide (3%nat ≠ 3%nat)) as [Hn|_]; [congruence|].
    rewrite Ho. reflexivity.
Qed.

Lemma process_false (b b' : SweepBlock.t) :
  SweepBlock.process b = (b', false) ->
  SweepBlock.is_valid b' = SweepBlock.is_valid b.
Proof.
  unfold SweepBlock.process.
  destruct (SweepBlock.all_present (SweepBlock.sensors b)) as [ds|].
  - destruct (SweepBlock.scan_channels ds _ _ _) as [[ch sb] [n|]].
    + destruct (decide (n ≠ 3%nat)).
      * intros H. injection H as <-. reflexivity.
      * destruct (SweepBlock.scan_offsets _ _ _) as [[[k ref]|] ok];
          destruct ok; simpl; intros H; try discriminate;
          injection H as <-; reflexivity.
    + intros H. injection H as <-. reflexivity.
  - intros H. injection H as <-. reflexivity.
Qed.

Lemma identity_count_elem (ds : list SweepData.t) d c :
  d ∈ ds -> SweepData.channel d = Some c -> (0 < identity_count ds)%nat.
Proof.
  induction ds as [|d0 ds IH]; intros Hd Hc; [inversion Hd|].
  rewrite identity_count_cons. apply elem_of_cons in Hd as [<-|Hd].
  - unfold has_identity. rewrite Hc. lia.
  - specialize (IH Hd Hc). lia.
Qed.

Lemma channels_agree_common (ds : list SweepData.t) :
  channels_agree ds ->
  exists c0, forall d c, d ∈ ds -> SweepData.channel d = Some c -> c = c0.
Proof.
  intros Hag. destruct (identity_count ds) as [|n] eqn:En.
  - exists 0. intros d c Hd Hc.
    pose proof (identity_count_elem ds d c Hd Hc). lia.
  - destruct (identity_count_pos ds) as (d0 & c0 & Hd0 & Hc0); [lia|].
    exists c0. intros d c Hd Hc. exact (Hag d d0 c c0 Hd Hd0 Hc Hc0).
Qed.

Lemma identities_agree_channels (ds : list SweepData.t) :
  identities_agree ds -> channels_agree ds.
Proof.
  intros Hag d d' c c' Hd Hd' Hc Hc'.
  destruct (Hag d d' Hd Hd') as [E _]; unfold has_identity;
    try (rewrite Hc; reflexivity); try (rewrite Hc'; reflexivity).
  congruence.
Qed.

(** On a block without a channel the channel loop runs to its end
    exactly when the decoded channels agree. *)
Lemma scan_channels_fresh ds sb n :
  channels_agree ds ->
  exists ch' sb',
    SweepBlock.scan_channels ds None sb n = (ch', sb', Some (n + identity_count ds)%nat).
Proof.
  intros Hag. destruct (channels_agree_common ds Hag) as [c0 Hc0].
  apply (scan_channels_agree ds None sb n c0 Hc0). left. reflexivity.
Qed.

Lemma scan_channels_done_agree ds ch sb n ch' sb' m :
  SweepBlock.scan_channels ds ch sb n = (ch', sb', Some m) -> channels_agree ds.
Proof.
  intros H. apply scan_channels_count in H as (_ & Hall & _).
  intros d d' c c' Hd Hd' Hc Hc'.
  pose proof (Hall d c Hd Hc). pose proof (Hall d' c' Hd' Hc'). congruence.
Qed.

Lemma identity_count_all (ds : list SweepData.t) :
  Forall (fun d => has_identity d = true) ds -> identity_count ds = length ds.
Proof.
  induction 1 as [|d ds Hd _ IH]; [reflexivity|].
  rewrite identity_count_cons, Hd, IH. reflexivity.
Qed.

Lemma offset_count_set_identity ch sb (ds : list SweepData.t) :
  offset_count (map (SweepData.set_identity ch sb) ds) = offset_count ds.
Proof.
  induction ds as [|d ds IH]; [reflexivity|].
  simpl map. rewrite !offset_count_cons, IH. reflexivity.
Qed.

Lemma fill_offset_channel ref d :
  SweepData.channel (SweepBlock.fill_offset ref d) = SweepData.channel d.
Proof. unfold SweepBlock.fill_offset. destruct (decide _); reflexivity. Qed.

Lemma fill_offset_slow_bit ref d :
  SweepData.slow_bit (SweepBlock.fill_offset ref d) = SweepData.slow_bit d.
Proof. unfold SweepBlock.fill_offset. destruct (decide _); reflexivity. Qed.

Lemma fill_offset_ts ref d :
  SweepData.ts (SweepBlock.fill_offset ref d) = SweepData.ts d.
Proof. unfold SweepBlock.fill_offset. destruct (decide _); reflexivity. Qed.

(** The offset written by the fifth loop differs from the reference
    offset by the timestamp delta, modulo 2^24. *)
Lemma fill_offset_delta ref d :
  SweepData.offset d = 0 ->
  (SweepData.offset (SweepBlock.fill_offset ref d) - SweepData.offset ref)
    mod 2 ^ 24
  = (SweepData.ts d - SweepData.ts ref) mod 2 ^ 24.
Proof.
  intros Hd. unfold SweepBlock.fill_offset.
  destruct (decide (SweepData.offset d = 0)) as [_|Hn]; [|contradiction].
  simpl. rewrite ts_add_mod, ts_sub_mod, Zminus_mod_idemp_l.
  replace (SweepData.offset ref + (SweepData.ts d - SweepData.ts ref) mod 2 ^ 24
           - SweepData.offset ref)
    with ((SweepData.ts d - SweepData.ts ref) mod 2 ^ 24) by lia.
  apply Z.mod_mod. lia.
Qed.

Lemma fill_offset_keep ref d :
  SweepData.offset d <> 0 -> SweepBlock.fill_offset ref d = d.
Proof.
  intros Hd. unfold SweepBlock.fill_offset.
  destruct (decide (SweepData.offset d = 0)); [contradiction | reflexivity].
Qed.

(** A successful finalisation, from the conditions on the slots. *)
Lemma process_ok (b : SweepBlock.t) (ds : list SweepData.t) :
  SweepBlock.channel b = None ->
  SweepBlock.sensors b = map Some ds ->
  identity_count ds = 3%nat ->
  channels_agree ds ->
  offset_count ds = 1%nat ->
  exists ch sb k d0,
    d0 ∈ ds /\ SweepData.offset d0 <> 0 /\
    SweepBlock.scan_channels ds None (SweepBlock.slow_bit b) 0 = (ch, sb, Some 3%nat) /\
    let ref := SweepData.set_identity ch sb d0 in
    let ds' := map (SweepBlock.fill_offset ref)
                 (map (SweepData.set_identity ch sb) ds) in
    SweepBlock.process b =
      ({| SweepBlock.sensors := map Some ds';
          SweepBlock.channel := ch;
          SweepBlock.ts := fold_left SweepBlock.first_ts ds' (SweepBlock.ts b);
          SweepBlock.is_valid := true;
          SweepBlock.offset_sensor := Some k;
          SweepBlock.slow_bit := sb |}, true).
Proof.
  intros Hch Hs Hid Hag Hoff.
  destruct (scan_channels_fresh ds (SweepBlock.slow_bit b) 0 Hag)
    as (ch & sb & Hscan).
  rewrite Hid in Hscan. simpl in Hscan.
  destruct (SweepBlock.scan_offsets (map (SweepData.set_identity ch sb) ds) 0 None)
    as [r ok] eqn:Eo.
  pose proof (scan_offsets_spec _ _ _ _ _ Eo) as Hspec. simpl in Hspec.
  rewrite offset_count_set_identity, Hoff in Hspec.
  destruct Hspec as (-> & k & ref & -> & _ & Hl & Href).
  rewrite list_lookup_fmap in Hl.
  destruct (ds !! (k - 0)%nat) as [d0|] eqn:Ed0; [|discriminate].
  simpl in Hl. injection Hl as <-.
  exists ch, sb, k, d0. split; [eapply list_elem_of_lookup_2; exact Ed0|].
  split; [apply has_offset_true in Href; exact Href|].
  split; [exact Hscan|]. simpl.
  apply process_true. exists ds, ch, sb, k, (SweepData.set_identity ch sb d0).
  rewrite Hch. repeat split; assumption.
Qed.

(** ** Reachable blocks *)

Lemma py_index_lt (n : nat) (i : Z) (k : nat) :
  py_index n i = Return k -> (k < n)%nat.
Proof.
  unfold py_index. destruct (decide (0 <= i < Z.of_nat n)) as [H|H].
  - intros E. injection E as <-. lia.
  - destruct (decide (- Z.of_nat n <= i < 0)) as [H'|H']; [|discriminate].
    intros E. injection E as <-. lia.
Qed.

Lemma py_index_nonneg (n : nat) (i : Z) :
  0 <= i < Z.of_nat n -> py_index n i = Return (Z.to_nat i).
Proof.
  intros H. unfold py_index.
  destruct (decide (0 <= i < Z.of_nat n)); [reflexivity | contradiction].
Qed.

Lemma push_cases b sensor ts width offset channel slow_bit b' ok :
  SweepBlock.push b sensor ts width offset channel slow_bit = Return (b', ok) ->
  exists k, py_index (length (SweepBlock.sensors b)) sensor = Return k /\
    ((exists d, SweepBlock.sensors b !! k = Some (Some d) /\ b' = b /\ ok = false) \/
     (SweepBlock.sensors b !! k = Some None /\ ok = true /\
      b' = SweepBlock.set_sensors
             (<[k := Some (SweepData.mk ts width offset channel slow_bit)]>
                (SweepBlock.sensors b)) b)).
Proof.
  unfold SweepBlock.push.
  destruct (py_index (length (SweepBlock.sensors b)) sensor) as [k|e] eqn:Ek;
    simpl; [|discriminate].
  intros H. exists k. split; [reflexivity|].
  apply py_index_lt in Ek. apply lookup_lt_is_Some_2 in Ek as [o Ho].
  rewrite Ho in H |- *. destruct o as [d|]; injection H as <- <-.
  - left. exists d. repeat split.
  - right. repeat split.
Qed.

Lemma process_inv (b : SweepBlock.t) :
  block_inv b -> block_inv (fst (SweepBlock.process b)).
Proof.
  intros [Hlen Hb]. unfold SweepBlock.process.
  destruct (SweepBlock.all_present (SweepBlock.sensors b)) as [ds|] eqn:Ea;
    [|split; assumption].
  apply all_present_Some in Ea.
  assert (Hlds : length ds = 4%nat) by (rewrite Ea, length_map in Hlen; exact Hlen).
  destruct (SweepBlock.scan_channels ds _ _ _) as [[ch sb] [n|]] eqn:Ec.
  - pose proof (scan_channels_count _ _ _ _ _ _ _ Ec) as (Hn & Hall & _).
    simpl in Hn. pose proof (scan_channels_done_agree _ _ _ _ _ _ _ Ec) as Hag.
    destruct (decide (n ≠ 3%nat)) as [Hn3|Hn3].
    + split; [exact Hlen|]. right. exists ds. split; [exact Ea|].
      intros [H3 _]. lia.
    + assert (n = 3%nat) as -> by lia.
      destruct (identity_count_pos ds) as (d0 & c0 & Hd0 & Hc0); [lia|].
      pose proof (Hall d0 c0 Hd0 Hc0) as ->.
      assert (Hfull : forall l,
                 (forall d, d ∈ l -> has_identity d = true) ->
                 length l = 4%nat ->
                 ~ (identity_count l = 3%nat /\ channels_agree l)).
      { intros l Hl Hl4 [H3 _]. rewrite identity_count_all in H3; [lia|].
        apply Forall_forall. exact Hl. }
      set (ds1 := map (SweepData.set_identity (Some c0) sb) ds).
      assert (H1 : forall d, d ∈ ds1 -> has_identity d = true).
      { intros d Hd. apply list_elem_of_fmap in Hd as (d' & -> & _). reflexivity. }
      assert (Hl1 : length ds1 = 4%nat) by (unfold ds1; rewrite length_map; exact Hlds).
      destruct (SweepBlock.scan_offsets ds1 0 None) as [[[k ref]|] ok];
        destruct ok; unfold block_inv; simpl;
        try (split; [rewrite length_map; exact Hl1|]; right; exists ds1;
             split; [reflexivity | apply Hfull; assumption]).
      split; [rewrite !length_map; exact Hl1|]. right.
      exists (map (SweepBlock.fill_offset ref) ds1). split; [reflexivity|].
      apply Hfull; [|rewrite length_map; exact Hl1].
      intros d Hd. apply list_elem_of_fmap in Hd as (d' & -> & Hd').
      unfold has_identity. rewrite fill_offset_channel. apply (H1 d' Hd').
  - split; [exact Hlen|]. right. exists ds. split; [exact Ea|].
    intros [H3 Hag]. destruct Hb as [(Hch & _) | (ds' & Hs' & Hno)].
    + rewrite Hch in Ec.
      destruct (scan_channels_fresh ds (SweepBlock.slow_bit b) 0 Hag)
        as (ch' & sb' & E). congruence.
    + rewrite Ea in Hs'. apply (f_equal (omap (fun o => o))) in Hs'.
      rewrite !omap_map_Some in Hs'. subst ds'. apply Hno. split; assumption.
Qed.

Lemma push_inv b sensor ts width offset channel slow_bit b' ok :
  block_inv b ->
  SweepBlock.push b sensor ts width offset channel slow_bit = Return (b', ok) ->
  block_inv b'.
Proof.
  intros [Hlen Hb] H.
  apply push_cases in H as (k & Hk & [(d & Hl & -> & ->) | (Hl & -> & ->)]).
  - split; assumption.
  - split; [simpl; rewrite length_insert; exact Hlen|].
    destruct Hb as [Hu | (ds & Hs & _)]; [left; exact Hu|].
    rewrite Hs, list_lookup_fmap in Hl.
    destruct (ds !! k); discriminate.
Qed.

Lemma reachable_inv (b : SweepBlock.t) : reachable b -> block_inv b.
Proof.
  induction 1 as [| b sensor ts width offset channel slow_bit b' ok _ IH Hp
                  | b _ IH].
  - split; [reflexivity|]. left. repeat split.
  - eapply push_inv; eassumption.
  - apply process_inv. exact IH.
Qed.

(** A reachable block that meets the conditions of finalisation has not
    been processed before. *)
Lemma reachable_unprocessed (b : SweepBlock.t) (ds : list SweepData.t) :
  reachable b ->
  SweepBlock.sensors b = map Some ds ->
  identity_count ds = 3%nat ->
  channels_agree ds ->
  unprocessed b /\ length ds = 4%nat.
Proof.
  intros Hr Hs H3 Hag. destruct (reachable_inv b Hr) as [Hlen Hb].
  split; [|rewrite Hs, length_map in Hlen; exact Hlen].
  destruct Hb as [Hu | (ds' & Hs' & Hno)]; [exact Hu|].
  rewrite Hs in Hs'. apply (f_equal (omap (fun o => o))) in Hs'.
  rewrite !omap_map_Some in Hs'. subst ds'. exfalso. apply Hno.
  split; assumption.
Qed.

(** ** Finalisation succeeds (C2) *)

(** C2: a block, as the constructor, [push] and [process] can produce
    it, with its four slots filled, exactly three decoded identities
    that agree, and exactly one nonzero offset finalizes:
    [process] returns [True] and marks the block valid, and every sensor
    that had no offset gets one that differs from the offset of the
    reference sensor by the timestamp delta, modulo 2^24; timestamps
    and the reference offset are kept. *)
Theorem process_finalizes (b : SweepBlock.t) (s0 s1 s2 s3 : SweepData.t) :
  reachable b ->
  SweepBlock.sensors b = [Some s0; Some s1; Some s2; Some s3] ->
  identity_count [s0; s1; s2; s3] = 3%nat ->
  identities_agree [s0; s1; s2; s3] ->
  offset_count [s0; s1; s2; s3] = 1%nat ->
  exists b' ds' ref,
    SweepBlock.process b = (b', true) /\
    SweepBlock.is_valid b' = true /\
    SweepBlock.sensors b' = map Some ds' /\
    ref ∈ [s0; s1; s2; s3] /\ SweepData.offset ref <> 0 /\
    Forall2
      (fun d d' =>
         SweepData.ts d' = SweepData.ts d /\
         (SweepData.offset d <> 0 -> SweepData.offset d' = SweepData.offset d) /\
         (SweepData.offset d = 0 ->
          (SweepData.offset d' - SweepData.offset ref) mod 2 ^ 24
          = (SweepData.ts d - SweepData.ts ref) mod 2 ^ 24))
      [s0; s1; s2; s3] ds'.
Proof.
  intros Hr Hs H3 Hid Hoff.
  apply identities_agree_channels in Hid as Hag.
  change [Some s0; Some s1; Some s2; Some s3]
    with (map Some [s0; s1; s2; s3]) in Hs.
  destruct (reachable_unprocessed b _ Hr Hs H3 Hag) as [(Hch & _) _].
  destruct (process_ok b _ Hch Hs H3 Hag Hoff)
    as (ch & sb & k & d0 & Hd0 & Ho0 & _ & Hp).
  cbv zeta in Hp. eexists _, _, d0. split; [exact Hp|].
  split; [reflexivity|]. split; [reflexivity|].
  split; [exact Hd0|]. split; [exact Ho0|].
  assert (Hone : forall d,
             let d' := SweepBlock.fill_offset (SweepData.set_identity ch sb d0)
                         (SweepData.set_identity ch sb d) in
             SweepData.ts d' = SweepData.ts d /\
             (SweepData.offset d <> 0 -> SweepData.offset d' = SweepData.offset d) /\
             (SweepData.offset d = 0 ->
              (SweepData.offset d' - SweepData.offset d0) mod 2 ^ 24
              = (SweepData.ts d - SweepData.ts d0) mod 2 ^ 24)).
  { intros d d'. unfold d'. rewrite fill_offset_ts. split; [reflexivity|]. split.
    - intros Hd. rewrite fill_offset_keep; [reflexivity | exact Hd].
    - intros Hd. apply (fill_offset_delta (SweepData.set_identity ch sb d0)
                          (SweepData.set_identity ch sb d)). exact Hd. }
  simpl map. repeat constructor; apply Hone.
Qed.

Lemma reachable_push_all (b : SweepBlock.t) (ps : list pulse) :
  reachable b -> reachable (push_all b ps).
Proof.
  revert b. induction ps as [|[[[[[sensor ts] width] offset] channel] slow_bit] ps IH];
    intros b Hb; [exact Hb|].
  unfold push_all. simpl. apply IH.
  destruct (SweepBlock.push b sensor ts width offset channel slow_bit)
    as [[b' ok]|e] eqn:E; [|exact Hb].
  eapply reachable_push; eassumption.
Qed.

Lemma good_block_sensors :
  SweepBlock.sensors good_block =
  [Some (SweepData.mk 1000 50 0 (Some 3) (Some 1));
   Some (SweepData.mk 1010 52 4000 (Some 3) (Some 1));
   Some (SweepData.mk 995 49 0 None None);
   Some (SweepData.mk 1020 51 0 (Some 3) (Some 1))].
Proof. vm_compute. reflexivity. Qed.

Lemma process_finalizes_witness :
  exists b' ds' ref,
    SweepBlock.process good_block = (b', true) /\
    SweepBlock.is_valid b' = true /\
    SweepBlock.sensors b' = map Some ds' /\
    ref ∈ [SweepData.mk 1000 50 0 (Some 3) (Some 1);
           SweepData.mk 1010 52 4000 (Some 3) (Some 1);
           SweepData.mk 995 49 0 None None;
           SweepData.mk 1020 51 0 (Some 3) (Some 1)] /\
    SweepData.offset ref <> 0 /\
    Forall2
      (fun d d' =>
         SweepData.ts d' = SweepData.ts d /\
         (SweepData.offset d <> 0 -> SweepData.offset d' = SweepData.offset d) /\
         (SweepData.offset d = 0 ->
          (SweepData.offset d' - SweepData.offset ref) mod 2 ^ 24
          = (SweepData.ts d - SweepData.ts ref) mod 2 ^ 24))
      [SweepData.mk 1000 50 0 (Some 3) (Some 1);
       SweepData.mk 1010 52 4000 (Some 3) (Some 1);
       SweepData.mk 995 49 0 None None;
       SweepData.mk 1020 51 0 (Some 3) (Some 1)] ds'.
Proof.
  apply (process_finalizes good_block).
  - apply reachable_push_all, reachable_new.
  - vm_compute. reflexivity.
  - vm_compute. reflexivity.
  - intros d d' Hd Hd' Hi Hi'.
    elem_cases Hd; elem_cases Hd'; try discriminate; split; reflexivity.
  - vm_compute. reflexivity.
Defined.

(** ** Finalisation fails (C3, C4) *)

Lemma process_not_filled (b : SweepBlock.t) :
  None ∈ SweepBlock.sensors b -> SweepBlock.process b = (b, false).
Proof.
  intros H. apply all_present_None in H. unfold SweepBlock.process.
  rewrite H. reflexivity.
Qed.

(** [process] returns [False] unless the filled slots hold exactly three
    decoded identities and exactly one nonzero offset. *)
Lemma process_counts (b b' : SweepBlock.t) :
  SweepBlock.process b = (b', true) ->
  identity_count (block_data b) = 3%nat /\ offset_count (block_data b) = 1%nat.
Proof.
  intros H. apply process_true in H
    as (ds & ch & sb & k & ref & Hs & Hc & Ho & _).
  rewrite (block_data_filled b ds Hs).
  apply scan_channels_count in Hc as (Hn & _). simpl in Hn.
  split; [lia|].
  apply scan_offsets_spec in Ho. simpl in Ho.
  rewrite offset_count_set_identity in Ho.
  destruct (offset_count ds) as [|[|n]]; [|reflexivity|].
  - destruct Ho as [Ho _]. discriminate.
  - destruct Ho as [Ho _]. discriminate.
Qed.

Lemma process_fails (b : SweepBlock.t) :
  (forall b', SweepBlock.process b <> (b', true)) ->
  exists b', SweepBlock.process b = (b', false) /\
             SweepBlock.is_valid b' = SweepBlock.is_valid b.
Proof.
  intros H. destruct (SweepBlock.process b) as [b' [|]] eqn:E.
  - exfalso. apply (H b'). reflexivity.
  - exists b'. split; [reflexivity|]. apply process_false. exact E.
Qed.

(** C3: a block with a missing sensor slot, or with a number of decoded
    identities other than three, or with no or with two or more nonzero
    offsets, fails finalisation: [process] returns [False] and leaves
    [is_valid] as it was. *)
Theorem process_rejects (b : SweepBlock.t) :
  None ∈ SweepBlock.sensors b \/
  identity_count (block_data b) <> 3%nat \/
  offset_count (block_data b) = 0%nat \/
  (2 <= offset_count (block_data b))%nat ->
  exists b', SweepBlock.process b = (b', false) /\
             SweepBlock.is_valid b' = SweepBlock.is_valid b.
Proof.
  intros H. apply process_fails. intros b' E.
  destruct H as [H | H].
  - rewrite (process_not_filled b H) in E. discriminate.
  - apply process_counts in E as [H3 H1]. lia.
Qed.

Lemma process_rejects_witness :
  (None ∈ SweepBlock.sensors short_block \/
   identity_count (block_data short_block) <> 3%nat \/
   offset_count (block_data short_block) = 0%nat \/
   (2 <= offset_count (block_data short_block))%nat) /\
  exists b', SweepBlock.process short_block = (b', false) /\
             SweepBlock.is_valid b' = SweepBlock.is_valid short_block.
Proof.
  assert (H : None ∈ SweepBlock.sensors short_block).
  { vm_compute. do 3 apply list_elem_of_further. apply list_elem_of_here. }
  split; [left; exact H|].
  apply (process_rejects short_block). left. exact H.
Defined.

(** A block built by the constructor and pushes alone is not valid, and
    stays so when finalisation fails. *)
Lemma process_rejects_built (ps : list pulse) (b' : SweepBlock.t) :
  SweepBlock.process (push_all SweepBlock.new ps) = (b', false) ->
  SweepBlock.is_valid b' = false.
Proof.
  intros H. apply process_false in H. rewrite H. clear H.
  assert (G : forall b, SweepBlock.is_valid (push_all b ps) = SweepBlock.is_valid b).
  { induction ps as [|[[[[[sensor ts] width] offset] channel] slow_bit] ps IH];
      intros b; [reflexivity|].
    unfold push_all. simpl. fold (push_all
      match SweepBlock.push b sensor ts width offset channel slow_bit with
      | Return (b', _) => b' | Raise _ => b end ps).
    rewrite IH.
    destruct (SweepBlock.push b sensor ts width offset channel slow_bit)
      as [[b1 ok]|e] eqn:E; [|reflexivity].
    apply push_cases in E as (k & _ & [(d & _ & -> & _) | (_ & _ & ->)]);
      reflexivity. }
  apply G.
Qed.

Lemma scan_channels_first ds sb n ch' sb' m :
  SweepBlock.scan_channels ds None sb n = (ch', sb', Some m) ->
  match List.find has_identity ds with
  | Some d => ch' = SweepData.channel d /\ sb' = SweepData.slow_bit d
  | None => ch' = None /\ sb' = sb
  end.
Proof.
  revert n. induction ds as [|d ds IH]; intros n H; simpl in H.
  - injection H as <- <- _. simpl. auto.
  - simpl. unfold has_identity at 1.
    destruct (SweepData.channel d) as [c|] eqn:Ec; [|eapply IH; exact H].
    destruct (decide (Some c ≠ Some c)) as [Hne|_]; [congruence|].
    apply scan_channels_count in H as (_ & _ & Hkeep & _).
    destruct (Hkeep c eq_refl) as [-> ->]. auto.
Qed.

(** C4, as the code has it: a block whose decoded identities do not all
    carry the same channel fails finalisation, and a block finalizes
    only when the decoded channels agree. The slow bits are not
    compared: a block that finalizes takes its slow bit, like its
    channel, from the first sensor, in slot order, that decoded an
    identity. *)
Theorem process_needs_one_channel (b : SweepBlock.t) :
  (~ channels_agree (block_data b) ->
   exists b', SweepBlock.process b = (b', false) /\
              SweepBlock.is_valid b' = SweepBlock.is_valid b) /\
  (forall b', SweepBlock.process b = (b', true) -> channels_agree (block_data b)) /\
  (forall b', reachable b -> SweepBlock.process b = (b', true) ->
     exists d, first_decoded b = Some d /\
       SweepBlock.slow_bit b' = SweepData.slow_bit d /\
       SweepBlock.channel b' = SweepData.channel d).
Proof.
  assert (G : forall b', SweepBlock.process b = (b', true) ->
                         channels_agree (block_data b)).
  { intros b' E. apply process_true in E
      as (ds & ch & sb & k & ref & Hs & Hc & _).
    rewrite (block_data_filled b ds Hs).
    eapply scan_channels_done_agree. exact Hc. }
  split; [|split; [exact G|]].
  - intros Hno. apply process_fails. intros b' E. apply Hno. exact (G b' E).
  - intros b' Hr E. pose proof (G b' E) as Hag.
    pose proof (process_counts b b' E) as [H3 _].
    apply process_true in E as (ds & ch & sb & k & ref & Hs & Hc & _ & ->).
    cbv zeta. unfold first_decoded.
    rewrite (block_data_filled b ds Hs) in *.
    destruct (reachable_unprocessed b ds Hr Hs H3 Hag) as [(Hch & _) _].
    rewrite Hch in Hc. apply scan_channels_first in Hc.
    destruct (List.find has_identity ds) as [d|] eqn:Ef.
    + exists d. destruct Hc as [-> ->]. repeat split.
    + exfalso. destruct (identity_count_pos ds) as (d & c & Hd & Hdc); [lia|].
      apply list_elem_of_In in Hd.
      pose proof (find_none _ _ Ef d Hd) as Hn.
      unfold has_identity in Hn. rewrite Hdc in Hn. discriminate.
Qed.

Lemma mixed_channel_disagree : ~ channels_agree (block_data mixed_channel_block).
Proof.
  intros H.
  assert (E : 3 = 4); [|discriminate].
  apply (H (SweepData.mk 1000 50 0 (Some 3) (Some 1))
           (SweepData.mk 1010 52 4000 (Some 4) (Some 1))); try reflexivity.
  - vm_compute. apply list_elem_of_here.
  - vm_compute. apply list_elem_of_further, list_elem_of_here.
Qed.

Lemma process_needs_one_channel_witness :
  (~ channels_agree (block_data mixed_channel_block) /\
   exists b', SweepBlock.process mixed_channel_block = (b', false) /\
              SweepBlock.is_valid b' = SweepBlock.is_valid mixed_channel_block) /\
  exists d,
    first_decoded mixed_slow_bit_block = Some d /\
    SweepBlock.slow_bit (fst (SweepBlock.process mixed_slow_bit_block))
    = SweepData.slow_bit d /\
    SweepBlock.channel (fst (SweepBlock.process mixed_slow_bit_block))
    = SweepData.channel d.
Proof.
  split; [split; [exact mixed_channel_disagree|]|].
  - apply (proj1 (process_needs_one_channel mixed_channel_block)).
    exact mixed_channel_disagree.
  - apply (proj2 (proj2 (process_needs_one_channel mixed_slow_bit_block))
             (fst (SweepBlock.process mixed_slow_bit_block))).
    + apply reachable_push_all, reachable_new.
    + vm_compute. reflexivity.
Defined.

(** C4 as stated fails: the decoded identities of this block disagree
    on the slow bit, and [process] finalizes it. *)
Lemma slow_bit_disagreement_finalizes :
  ~ identities_agree (block_data mixed_slow_bit_block) /\
  snd (SweepBlock.process mixed_slow_bit_block) = true /\
  SweepBlock.is_valid (fst (SweepBlock.process mixed_slow_bit_block)) = true.
Proof.
  split; [|split; vm_compute; reflexivity].
  intros H.
  destruct (H (SweepData.mk 1000 50 0 (Some 3) (Some 1))
              (SweepData.mk 1010 52 4000 (Some 3) (Some 0))) as [_ E];
    try reflexivity; try discriminate.
  - vm_compute. apply list_elem_of_here.
  - vm_compute. apply list_elem_of_further, list_elem_of_here.
Qed.

(** ** The block timestamp (C5) *)

Lemma first_ts_nonzero (t : Z) (d : SweepData.t) :
  t <> 0 -> SweepBlock.first_ts (Some t) d = Some (Z.min t (SweepData.ts d)).
Proof.
  intros Ht. unfold SweepBlock.first_ts.
  destruct t as [|p|p]; [contradiction| |];
    (destruct (decide _) as [H|H]; f_equal; lia).
Qed.

Lemma fold_first_ts_nonzero (ds : list SweepData.t) (t : Z) :
  t <> 0 ->
  Forall (fun d => SweepData.ts d <> 0) ds ->
  fold_left SweepBlock.first_ts ds (Some t)
  = Some (minimum t (map SweepData.ts ds)).
Proof.
  intros Ht H. revert t Ht. induction H as [|d ds Hd _ IH]; intros t Ht.
  - reflexivity.
  - simpl. rewrite first_ts_nonzero by exact Ht. apply IH. lia.
Qed.

Lemma fold_first_ts_ext (ds ds' : list SweepData.t) (cur : option Z) :
  map SweepData.ts ds = map SweepData.ts ds' ->
  fold_left SweepBlock.first_ts ds cur = fold_left SweepBlock.first_ts ds' cur.
Proof.
  revert ds' cur. induction ds as [|d ds IH]; intros [|d' ds'] cur H;
    try discriminate; [reflexivity|].
  simpl in H. injection H as Hd H. simpl.
  replace (SweepBlock.first_ts cur d') with (SweepBlock.first_ts cur d)
    by (unfold SweepBlock.first_ts; rewrite Hd; reflexivity).
  apply IH. exact H.
Qed.

(** X7: Where no sensor timestamp is 0, the block timestamp of a block that
    finalizes is the plain minimum of the four sensor timestamps. *)
Lemma process_ts_minimum (b b' : SweepBlock.t) (s0 s1 s2 s3 : SweepData.t) :
  SweepBlock.ts b = None ->
  SweepBlock.sensors b = [Some s0; Some s1; Some s2; Some s3] ->
  Forall (fun d => SweepData.ts d <> 0) [s0; s1; s2; s3] ->
  SweepBlock.process b = (b', true) ->
  SweepBlock.ts b'
  = Some (minimum (SweepData.ts s0)
            [SweepData.ts s1; SweepData.ts s2; SweepData.ts s3]).
Proof.
  intros Hts Hs Hnz H. apply process_true in H
    as (ds & ch & sb & k & ref & Hs' & _ & _ & ->).
  rewrite Hs in Hs'. apply (f_equal (omap (fun o => o))) in Hs'.
  rewrite omap_map_Some in Hs'. simpl in Hs'. subst ds. cbv zeta.
  unfold SweepBlock.ts at 1. rewrite Hts.
  rewrite (fold_first_ts_ext _ [s0; s1; s2; s3])
    by (simpl; rewrite !fill_offset_ts; reflexivity).
  inversion Hnz as [|? ? H0 Hrest]; subst.
  change (fold_left SweepBlock.first_ts [s0; s1; s2; s3] None)
    with (fold_left SweepBlock.first_ts [s1; s2; s3]
            (SweepBlock.first_ts None s0)).
  replace (SweepBlock.first_ts None s0) with (Some (SweepData.ts s0)).
  - apply (fold_first_ts_nonzero [s1; s2; s3]); assumption.
  - unfold SweepBlock.first_ts. destruct (decide _); reflexivity.
Qed.

(** C5 at its failing input: the sensor timestamps are 0, 5, 3 and 7;
    [process] succeeds and leaves the block timestamp 3, while the
    minimum of the four is 0. The pulse processor collects this block
    from the four pulses in the order of their timestamps and hands it
    on, with timestamp 3, at the next pulse after a gap. *)
Theorem process_ts_not_minimum :
  map SweepData.ts (block_data zero_ts_block) = [0; 5; 3; 7] /\
  snd (SweepBlock.process zero_ts_block) = true /\
  SweepBlock.ts (fst (SweepBlock.process zero_ts_block)) = Some 3 /\
  minimum 0 [5; 3; 7] = 0 /\
  PulseProcessor.block zero_ts_processor = Some zero_ts_block /\
  snd (PulseProcessor.push zero_ts_processor 0 20000 50 0 (Some 3) (Some 1))
  = Return (Some (fst (SweepBlock.process zero_ts_block))).
Proof. vm_compute. repeat split; reflexivity. Qed.

(** ** Finalized blocks *)

Lemma fold_first_ts_Some (ds : list SweepData.t) (cur : option Z) :
  ds <> [] -> exists t, fold_left SweepBlock.first_ts ds cur = Some t.
Proof.
  revert cur. induction ds as [|d ds IH]; intros cur Hne; [contradiction|].
  simpl. destruct ds as [|d' ds'].
  - simpl. unfold SweepBlock.first_ts. eauto.
  - apply IH. discriminate.
Qed.

Lemma list_length_4 {A : Type} (l : list A) :
  length l = 4%nat -> exists x0 x1 x2 x3, l = [x0; x1; x2; x3].
Proof.
  destruct l as [|x0 [|x1 [|x2 [|x3 [|x4 l]]]]]; try discriminate.
  intros _. eauto.
Qed.

(** What a finalized block looks like. *)
Lemma finalized_shape (b : SweepBlock.t) :
  finalized b ->
  SweepBlock.is_valid b = true /\
  exists s0 s1 s2 s3 t c,
    SweepBlock.sensors b = [Some s0; Some s1; Some s2; Some s3] /\
    SweepBlock.ts b = Some t /\ SweepBlock.channel b = Some c /\
    Forall (fun d => SweepData.channel d = Some c /\
                     SweepData.slow_bit d = SweepBlock.slow_bit b)
      [s0; s1; s2; s3].
Proof.
  intros (b0 & Hr & Hp). apply reachable_inv in Hr as [Hlen _].
  apply process_true in Hp as (ds & ch & sb & k & ref & Hs & Hc & _ & ->).
  cbv zeta. split; [reflexivity|].
  rewrite Hs, length_map in Hlen.
  apply list_length_4 in Hlen as (d0 & d1 & d2 & d3 & ->).
  apply scan_channels_count in Hc as (Hn & Hall & _). simpl in Hn.
  destruct (identity_count_pos [d0; d1; d2; d3]) as (d & c & Hd & Hdc); [lia|].
  pose proof (Hall d c Hd Hdc) as ->.
  destruct (fold_first_ts_Some
              (map (SweepBlock.fill_offset ref)
                 (map (SweepData.set_identity (Some c) sb) [d0; d1; d2; d3]))
              (SweepBlock.ts b0)) as [t Ht]; [discriminate|].
  eexists _, _, _, _, t, c. simpl SweepBlock.sensors. simpl SweepBlock.ts.
  split; [reflexivity|]. split; [exact Ht|]. split; [reflexivity|].
  repeat constructor; simpl;
    rewrite ?fill_offset_channel, ?fill_offset_slow_bit; reflexivity.
Qed.

(** ** The angle model (C7) *)

Lemma bind_Return {A B : Type} (x : A) (k : A -> result B) :
  (Return x ≫= k) = k x.
Proof. reflexivity. Qed.

Lemma attr_Some {A B : Type} (f : A -> B) (x : A) :
  attr f (Some x) = Return (f x).
Proof. reflexivity. Qed.

Lemma py_get_nonneg {A : Type} (l : list A) (i : Z) (x : A) :
  0 <= i -> l !! Z.to_nat i = Some x -> py_get l i = Return x.
Proof.
  intros Hi Hl. unfold py_get.
  rewrite py_index_nonneg.
  - simpl. rewrite Hl. reflexivity.
  - apply lookup_lt_Some in Hl. lia.
Qed.

(** [radians(60) / 2] and [radians(120)] are pi/6 and 2 pi/3. *)
Lemma calculateAE_formula (firstBeam secondBeam : R) :
  calculateAE firstBeam secondBeam =
  (((firstBeam + secondBeam) / 2 - PI)%R,
   atan (sin (((secondBeam - firstBeam) - 2 * PI / 3) / 2) / tan (PI / 6))%R).
Proof.
  unfold calculateAE, radians.
  replace (60 * (PI / 180) / 2)%R with (PI / 6)%R by field.
  replace (120 * (PI / 180))%R with (2 * PI / 3)%R by field.
  reflexivity.
Qed.

Lemma periods_get (c : Z) :
  0 <= c < 16 ->
  exists period,
    PERIODS !! Z.to_nat c = Some period /\ py_get PERIODS c = Return period.
Proof.
  intros Hc.
  destruct (lookup_lt_is_Some_2 PERIODS (Z.to_nat c)) as [period Hp];
    [simpl; lia|].
  exists period. split; [exact Hp|]. apply py_get_nonneg; [lia | exact Hp].
Qed.

(** One turn of the loop of [process] on filled slots. *)
Lemma process_sensor_ok (self : BaseStation.t) (a b : SweepBlock.t)
    (res : Angles.t) (i : Z) (da db : SweepData.t) (period : R) :
  0 <= i < Z.of_nat (length (Angles.data res)) ->
  SweepBlock.sensors a !! Z.to_nat i = Some (Some da) ->
  SweepBlock.sensors b !! Z.to_nat i = Some (Some db) ->
  py_get PERIODS (BaseStation.channel self) = Return period ->
  BaseStation.process_sensor self a b (Return res) i =
  Return {| Angles.data :=
              <[Z.to_nat i := Some (calculateAE (beam period (SweepData.offset da))
                                      (beam period (SweepData.offset db)))]>
                (Angles.data res);
            Angles.channel := Angles.channel res |}.
Proof.
  intros Hi Ha Hb Hp. unfold BaseStation.process_sensor.
  rewrite bind_Return; cbv beta.
  rewrite (py_get_nonneg (SweepBlock.sensors a) i (Some da)) by (lia || exact Ha).
  rewrite bind_Return; cbv beta. rewrite attr_Some.
  rewrite bind_Return; cbv beta.
  rewrite (py_get_nonneg (SweepBlock.sensors b) i (Some db)) by (lia || exact Hb).
  rewrite bind_Return; cbv beta. rewrite attr_Some.
  rewrite bind_Return; cbv beta.
  rewrite Hp, bind_Return; cbv beta zeta.
  fold (beam period (SweepData.offset da)) (beam period (SweepData.offset db)).
  destruct (calculateAE _ _) as [azimuth elevation].
  unfold Angles.set. rewrite py_index_nonneg by exact Hi. reflexivity.
Qed.

(** [process] on two blocks with their four slots filled returns the
    pairs of [calculateAE], slot by slot. *)
Lemma process_returns (self : BaseStation.t) (a b : SweepBlock.t)
    (a0 a1 a2 a3 b0 b1 b2 b3 : SweepData.t) (period : R) :
  py_get PERIODS (BaseStation.channel self) = Return period ->
  SweepBlock.sensors a = [Some a0; Some a1; Some a2; Some a3] ->
  SweepBlock.sensors b = [Some b0; Some b1; Some b2; Some b3] ->
  BaseStation.process self a b =
  Return {| Angles.data :=
              map (fun '(da, db) =>
                     Some (calculateAE (beam period (SweepData.offset da))
                             (beam period (SweepData.offset db))))
                [(a0, b0); (a1, b1); (a2, b2); (a3, b3)];
            Angles.channel := BaseStation.channel self |}.
Proof.
  intros Hg Ha Hb. unfold BaseStation.process. cbn [fold_left].
  rewrite (process_sensor_ok self a b _ 0 a0 b0 period);
    [|simpl; lia | rewrite Ha; reflexivity | rewrite Hb; reflexivity | exact Hg].
  rewrite (process_sensor_ok self a b _ 1 a1 b1 period);
    [|simpl; lia | rewrite Ha; reflexivity | rewrite Hb; reflexivity | exact Hg].
  rewrite (process_sensor_ok self a b _ 2 a2 b2 period);
    [|simpl; lia | rewrite Ha; reflexivity | rewrite Hb; reflexivity | exact Hg].
  rewrite (process_sensor_ok self a b _ 3 a3 b3 period);
    [|simpl; lia | rewrite Ha; reflexivity | rewrite Hb; reflexivity | exact Hg].
  reflexivity.
Qed.

(** C7: on a channel [c] in 0..15 and for two blocks with their four
    slots filled, [process] gives for every slot [i], with the beams
    [firstBeam = (a.sensors[i].offset / PERIODS[c]) * 2 pi] and
    [secondBeam = (b.sensors[i].offset / PERIODS[c]) * 2 pi], the
    azimuth [(firstBeam + secondBeam) / 2 - pi] and the elevation
    [atan (sin (((secondBeam - firstBeam) - 2 pi / 3) / 2) / tan (pi / 6))]. *)
Theorem process_angle_formula (self : BaseStation.t) (a b : SweepBlock.t)
    (a0 a1 a2 a3 b0 b1 b2 b3 : SweepData.t) :
  0 <= BaseStation.channel self < 16 ->
  SweepBlock.sensors a = [Some a0; Some a1; Some a2; Some a3] ->
  SweepBlock.sensors b = [Some b0; Some b1; Some b2; Some b3] ->
  exists period,
    PERIODS !! Z.to_nat (BaseStation.channel self) = Some period /\
    BaseStation.process self a b =
    Return {| Angles.data :=
                [Some (angle_formula period (SweepData.offset a0) (SweepData.offset b0));
                 Some (angle_formula period (SweepData.offset a1) (SweepData.offset b1));
                 Some (angle_formula period (SweepData.offset a2) (SweepData.offset b2));
                 Some (angle_formula period (SweepData.offset a3) (SweepData.offset b3))];
              Angles.channel := BaseStation.channel self |}.
Proof.
  intros Hc Ha Hb. destruct (periods_get _ Hc) as (period & Hp & Hg).
  exists period. split; [exact Hp|].
  rewrite (process_returns self a b a0 a1 a2 a3 b0 b1 b2 b3 period Hg Ha Hb).
  unfold angle_formula. cbv zeta. simpl map.
  rewrite !calculateAE_formula. reflexivity.
Qed.

Lemma first_sweep_sensors :
  SweepBlock.sensors first_sweep =
  [Some (SweepData.mk 1000 50 3990 (Some 3) (Some 1));
   Some (SweepData.mk 1010 52 4000 (Some 3) (Some 1));
   Some (SweepData.mk 995 49 3985 (Some 3) (Some 1));
   Some (SweepData.mk 1020 51 4010 (Some 3) (Some 1))].
Proof. vm_compute. reflexivity. Qed.

Lemma second_sweep_sensors :
  SweepBlock.sensors second_sweep =
  [Some (SweepData.mk 101000 50 103990 (Some 3) (Some 1));
   Some (SweepData.mk 101010 52 104000 (Some 3) (Some 1));
   Some (SweepData.mk 100995 49 103985 (Some 3) (Some 1));
   Some (SweepData.mk 101020 51 104010 (Some 3) (Some 1))].
Proof. vm_compute. reflexivity. Qed.

Lemma process_angle_formula_witness :
  0 <= 3 < 16 /\
  exists period,
    PERIODS !! 3%nat = Some period /\
    BaseStation.process (BaseStation.new 3) first_sweep second_sweep =
    Return {| Angles.data :=
                [Some (angle_formula period 3990 103990);
                 Some (angle_formula period 4000 104000);
                 Some (angle_formula period 3985 103985);
                 Some (angle_formula period 4010 104010)];
              Angles.channel := 3 |}.
Proof.
  split; [lia|].
  apply (process_angle_formula (BaseStation.new 3) first_sweep second_sweep
           (SweepData.mk 1000 50 3990 (Some 3) (Some 1))
           (SweepData.mk 1010 52 4000 (Some 3) (Some 1))
           (SweepData.mk 995 49 3985 (Some 3) (Some 1))
           (SweepData.mk 1020 51 4010 (Some 3) (Some 1))
           (SweepData.mk 101000 50 103990 (Some 3) (Some 1))
           (SweepData.mk 101010 52 104000 (Some 3) (Some 1))
           (SweepData.mk 100995 49 103985 (Some 3) (Some 1))
           (SweepData.mk 101020 51 104010 (Some 3) (Some 1))).
  - simpl. lia.
  - exact first_sweep_sensors.
  - exact second_sweep_sensors.
Defined.

(** ** Pairing two sweeps (C1, C6) *)

Lemma is_second_sweep_value (a b : SweepBlock.t) (oa ob ta tb : Z) :
  sensor_offset a 0 = Some oa ->
  sensor_offset b 0 = Some ob ->
  SweepBlock.ts a = Some ta ->
  SweepBlock.ts b = Some tb ->
  BaseStation.is_second_sweep a b =
  Return (if decide (oa > ob) then false
          else if decide (ts_sub tb ta > 220000) then false else true).
Proof.
  unfold sensor_offset. intros Ha Hb Hta Htb.
  destruct (SweepBlock.sensors a !! 0%nat) as [[da|]|] eqn:Ea; try discriminate.
  destruct (SweepBlock.sensors b !! 0%nat) as [[db|]|] eqn:Eb; try discriminate.
  injection Ha as <-. injection Hb as <-.
  unfold BaseStation.is_second_sweep.
  rewrite (py_get_nonneg (SweepBlock.sensors a) 0 (Some da)) by (lia || exact Ea).
  rewrite bind_Return; cbv beta. rewrite attr_Some.
  rewrite bind_Return; cbv beta.
  rewrite (py_get_nonneg (SweepBlock.sensors b) 0 (Some db)) by (lia || exact Eb).
  rewrite bind_Return; cbv beta. rewrite attr_Some.
  rewrite bind_Return; cbv beta.
  destruct (decide (SweepData.offset da > SweepData.offset db)); [reflexivity|].
  unfold BaseStation.block_ts. rewrite Hta, Htb. simpl.
  destruct (decide (ts_sub tb ta > 220000)); reflexivity.
Qed.

(** C1: a tracker of a channel in 0..15 holds a pending finalized block
    and is pushed a second finalized block of its channel; the offset of
    sensor 0 does not decrease and the wrapping timestamp delta is at
    most 220000. Then [push] returns one angle result, the one that the
    angle model ([process]) computes from the pair, and the tracker has
    no pending block afterwards. *)
Theorem push_second_sweep (self : BaseStation.t) (pending block : SweepBlock.t)
    (oa ob ta tb : Z) :
  0 <= BaseStation.channel self < 16 ->
  BaseStation.prev_block self = Some pending ->
  finalized pending -> finalized block ->
  SweepBlock.channel block = Some (BaseStation.channel self) ->
  sensor_offset pending 0 = Some oa -> sensor_offset block 0 = Some ob ->
  SweepBlock.ts pending = Some ta -> SweepBlock.ts block = Some tb ->
  oa <= ob -> ts_sub tb ta <= 220000 ->
  exists angles,
    BaseStation.process self pending block = Return angles /\
    BaseStation.push self block =
      ({| BaseStation.channel := BaseStation.channel self;
          BaseStation.prev_block := None |}, Return (Some angles)).
Proof.
  intros Hc Hprev Hfa Hfb Hch Hoa Hob Hta Htb Hoff Hdt.
  apply finalized_shape in Hfa as (_ & a0 & a1 & a2 & a3 & _ & _ & Ha & _).
  apply finalized_shape in Hfb as (_ & b0 & b1 & b2 & b3 & _ & _ & Hb & _).
  destruct (periods_get _ Hc) as (period & _ & Hg).
  pose proof (process_returns self pending block _ _ _ _ _ _ _ _ period
                Hg Ha Hb) as Hp.
  eexists. split; [exact Hp|].
  unfold BaseStation.push.
  destruct (decide (SweepBlock.channel block ≠ Some (BaseStation.channel self)))
    as [Hne|_]; [contradiction|].
  rewrite Hprev, (is_second_sweep_value pending block oa ob ta tb) by assumption.
  destruct (decide (oa > ob)); [lia|].
  destruct (decide (ts_sub tb ta > 220000)); [lia|].
  rewrite Hp. reflexivity.
Qed.

Lemma is_second_sweep_decreasing (a b : SweepBlock.t) (oa ob : Z) :
  sensor_offset a 0 = Some oa ->
  sensor_offset b 0 = Some ob ->
  oa > ob ->
  BaseStation.is_second_sweep a b = Return false.
Proof.
  unfold sensor_offset. intros Ha Hb Hgt.
  destruct (SweepBlock.sensors a !! 0%nat) as [[da|]|] eqn:Ea; try discriminate.
  destruct (SweepBlock.sensors b !! 0%nat) as [[db|]|] eqn:Eb; try discriminate.
  injection Ha as <-. injection Hb as <-.
  unfold BaseStation.is_second_sweep.
  rewrite (py_get_nonneg (SweepBlock.sensors a) 0 (Some da)) by (lia || exact Ea).
  rewrite bind_Return; cbv beta. rewrite attr_Some.
  rewrite bind_Return; cbv beta.
  rewrite (py_get_nonneg (SweepBlock.sensors b) 0 (Some db)) by (lia || exact Eb).
  rewrite bind_Return; cbv beta. rewrite attr_Some.
  rewrite bind_Return; cbv beta.
  destruct (decide (SweepData.offset da > SweepData.offset db));
    [reflexivity | contradiction].
Qed.

(** C6: a tracker holds a pending block and is pushed a block of its
    channel that violates a bound: the offset of sensor 0 decreases, or
    the wrapping timestamp delta exceeds 220000. Then [push] returns
    nothing and the pushed block is the pending block afterwards; the
    old pending block is gone. *)
Theorem push_rearms (self : BaseStation.t) (pending block : SweepBlock.t)
    (oa ob : Z) :
  BaseStation.prev_block self = Some pending ->
  SweepBlock.channel block = Some (BaseStation.channel self) ->
  sensor_offset pending 0 = Some oa -> sensor_offset block 0 = Some ob ->
  oa > ob \/
  (exists ta tb, SweepBlock.ts pending = Some ta /\ SweepBlock.ts block = Some tb /\
                 ts_sub tb ta > 220000) ->
  BaseStation.push self block =
    ({| BaseStation.channel := BaseStation.channel self;
        BaseStation.prev_block := Some block |}, Return None).
Proof.
  intros Hprev Hch Hoa Hob Hbad.
  unfold BaseStation.push.
  destruct (decide (SweepBlock.channel block ≠ Some (BaseStation.channel self)))
    as [Hne|_]; [contradiction|].
  rewrite Hprev. destruct Hbad as [Hgt | (ta & tb & Hta & Htb & Hdt)].
  - rewrite (is_second_sweep_decreasing pending block oa ob) by assumption.
    reflexivity.
  - rewrite (is_second_sweep_value pending block oa ob ta tb) by assumption.
    destruct (decide (oa > ob)); [reflexivity|].
    destruct (decide (ts_sub tb ta > 220000)); [reflexivity | lia].
Qed.

Lemma first_sweep_finalized : finalized first_sweep.
Proof.
  exists good_block. split; [apply reachable_push_all, reachable_new|].
  vm_compute. reflexivity.
Qed.

Lemma second_sweep_finalized : finalized second_sweep.
Proof.
  exists later_block. split; [apply reachable_push_all, reachable_new|].
  vm_compute. reflexivity.
Qed.

Lemma push_second_sweep_witness :
  (3990 <= 103990 /\ ts_sub 100995 995 <= 220000) /\
  exists angles,
    BaseStation.process (BaseStation.mk 3 (Some first_sweep))
      first_sweep second_sweep = Return angles /\
    BaseStation.push (BaseStation.mk 3 (Some first_sweep)) second_sweep =
      (BaseStation.mk 3 None, Return (Some angles)).
Proof.
  split; [split; [lia | vm_compute; discriminate]|].
  apply (push_second_sweep (BaseStation.mk 3 (Some first_sweep))
           first_sweep second_sweep 3990 103990 995 100995).
  - simpl. lia.
  - reflexivity.
  - exact first_sweep_finalized.
  - exact second_sweep_finalized.
  - vm_compute. reflexivity.
  - vm_compute. reflexivity.
  - vm_compute. reflexivity.
  - vm_compute. reflexivity.
  - vm_compute. reflexivity.
  - lia.
  - vm_compute. discriminate.
Defined.

Lemma push_rearms_witness :
  103990 > 3990 /\
  BaseStation.push (BaseStation.mk 3 (Some second_sweep)) first_sweep =
    (BaseStation.mk 3 (Some first_sweep), Return None).
Proof.
  split; [lia|].
  apply (push_rearms (BaseStation.mk 3 (Some second_sweep))
           second_sweep first_sweep 103990 3990).
  - reflexivity.
  - vm_compute. reflexivity.
  - vm_compute. reflexivity.
  - vm_compute. reflexivity.
  - left. lia.
Defined.

(** The time bound alone re-arms the tracker too: the offset of sensor 0
    grows from 3990 to 103990, and the delta is 300000 ticks. *)
Lemma is_second_sweep_time_bound :
  BaseStation.is_second_sweep first_sweep far_sweep = Return false.
Proof.
  rewrite (is_second_sweep_value first_sweep far_sweep 3990 103990 995 300995);
    vm_compute; reflexivity.
Qed.

(** ** The sweep aggregator (C8) *)

Lemma push_in_range (b : SweepBlock.t) (sensor ts width offset : Z)
    (channel slow_bit : option Z) :
  length (SweepBlock.sensors b) = 4%nat ->
  0 <= sensor < 4 ->
  exists b' ok,
    SweepBlock.push b sensor ts width offset channel slow_bit = Return (b', ok).
Proof.
  intros Hlen Hs. unfold SweepBlock.push.
  rewrite py_index_nonneg by (rewrite Hlen; simpl; lia).
  rewrite bind_Return.
  destruct (SweepBlock.sensors b !! Z.to_nat sensor) as [[d|]|]; eauto.
Qed.

Lemma push_new (sensor ts width offset : Z) (channel slow_bit : option Z) :
  0 <= sensor < 4 ->
  SweepBlock.push SweepBlock.new sensor ts width offset channel slow_bit =
  Return (push_all SweepBlock.new [(sensor, ts, width, offset, channel, slow_bit)],
          true).
Proof.
  intros Hs.
  assert (E : exists b', SweepBlock.push SweepBlock.new sensor ts width offset
                           channel slow_bit = Return (b', true)).
  { unfold SweepBlock.push.
    rewrite py_index_nonneg by (simpl; lia). rewrite bind_Return.
    destruct (SweepBlock.sensors SweepBlock.new !! Z.to_nat sensor)
      as [[d|]|] eqn:El; eauto.
    apply list_elem_of_lookup_2 in El. simpl in El.
    elem_cases El; discriminate. }
  destruct E as [b' E]. unfold push_all. simpl. rewrite E. reflexivity.
Qed.

(** The result of [PulseProcessor.push] is the block that [close_block]
    hands over, whenever the sensor index is in range. *)
Lemma pulse_push_result (self : PulseProcessor.t) (sensor ts width offset : Z)
    (channel slow_bit : option Z) :
  0 <= sensor < 4 ->
  (forall b, PulseProcessor.block self = Some b ->
             length (SweepBlock.sensors b) = 4%nat) ->
  snd (PulseProcessor.push self sensor ts width offset channel slow_bit)
  = Return (snd (PulseProcessor.close_block self ts)).
Proof.
  intros Hs Hlen. unfold PulseProcessor.push.
  destruct (PulseProcessor.close_block self ts) as [blk res] eqn:Ec.
  assert (Hblk : forall b, blk = Some b -> length (SweepBlock.sensors b) = 4%nat).
  { intros b ->. unfold PulseProcessor.close_block in Ec.
    destruct (decide _) in Ec.
    - destruct (PulseProcessor.block self) as [b0|]; [|discriminate].
      destruct (SweepBlock.process b0) as [b' ok]. discriminate.
    - injection Ec as Ec _. apply Hlen. exact Ec. }
  destruct (push_in_range (match blk with Some b => b | None => SweepBlock.new end)
              sensor ts width offset channel slow_bit) as (b' & ok & E).
  - destruct blk as [b|]; [apply Hblk; reflexivity | reflexivity].
  - exact Hs.
  - rewrite E. destruct ok; reflexivity.
Qed.

Lemma close_block_result (self : PulseProcessor.t) (ts : Z) (b : SweepBlock.t) :
  snd (PulseProcessor.close_block self ts) = Some b <->
  ts_sub ts (PulseProcessor.latest_pulse self) > 10000 /\
  exists b0, PulseProcessor.block self = Some b0 /\
             SweepBlock.process b0 = (b, true).
Proof.
  unfold PulseProcessor.close_block.
  destruct (decide (ts_sub ts (PulseProcessor.latest_pulse self) > 10000))
    as [Hgap|Hgap].
  - destruct (PulseProcessor.block self) as [b0|].
    + destruct (SweepBlock.process b0) as [b' ok] eqn:Ep. simpl. split.
      * destruct ok; [|discriminate]. intros H. injection H as H. subst b'.
        split; [exact Hgap|]. exists b0. split; [reflexivity | exact Ep].
      * intros (_ & b1 & Hb1 & Hp). injection Hb1 as <-.
        rewrite Ep in Hp. injection Hp as Hb' Hok. subst. reflexivity.
    + simpl. split; [discriminate|]. intros (_ & b0 & H & _). discriminate.
  - simpl. split; [discriminate|]. intros [H _]. contradiction.
Qed.

Lemma pulse_push_latest (self : PulseProcessor.t) (sensor ts width offset : Z)
    (channel slow_bit : option Z) :
  PulseProcessor.latest_pulse
    (fst (PulseProcessor.push self sensor ts width offset channel slow_bit)) = ts.
Proof.
  unfold PulseProcessor.push.
  destruct (PulseProcessor.close_block self ts) as [blk res].
  destruct (SweepBlock.push _ _ _ _ _ _ _) as [[b' [|]]|e]; reflexivity.
Qed.

(** After a timing gap the processor goes on with a new block that
    holds the pushed pulse alone. *)
Lemma pulse_push_restart (self : PulseProcessor.t) (sensor ts width offset : Z)
    (channel slow_bit : option Z) :
  0 <= sensor < 4 ->
  ts_sub ts (PulseProcessor.latest_pulse self) > 10000 ->
  PulseProcessor.block
    (fst (PulseProcessor.push self sensor ts width offset channel slow_bit))
  = Some (push_all SweepBlock.new [(sensor, ts, width, offset, channel, slow_bit)]).
Proof.
  intros Hs Hgap. unfold PulseProcessor.push, PulseProcessor.close_block.
  destruct (decide _) as [_|H]; [|contradiction].
  destruct (PulseProcessor.block self) as [b0|].
  - destruct (SweepBlock.process b0) as [b' ok].
    rewrite push_new by exact Hs. reflexivity.
  - rewrite push_new by exact Hs. reflexivity.
Qed.

(** C8: every call of [push] sets [latest_pulse] to the timestamp of the
    pulse. For a pulse of a sensor 0..3 the call returns a block exactly
    when the wrapping delta to the latest pulse exceeds 10000, a block
    was open and [process] succeeds on it, and what it returns is that
    processed block; when [process] fails nothing is returned and the
    open block is dropped: the processor goes on with a new block that
    holds the pushed pulse alone. *)
Theorem pulse_push_emits (self : PulseProcessor.t) (sensor ts width offset : Z)
    (channel slow_bit : option Z) :
  let out := PulseProcessor.push self sensor ts width offset channel slow_bit in
  let gap := ts_sub ts (PulseProcessor.latest_pulse self) > 10000 in
  PulseProcessor.latest_pulse (fst out) = ts /\
  (0 <= sensor < 4 ->
   (forall b, PulseProcessor.block self = Some b ->
              length (SweepBlock.sensors b) = 4%nat) ->
   exists res,
     snd out = Return res /\
     (forall b, res = Some b <->
        gap /\ exists b0, PulseProcessor.block self = Some b0 /\
                          SweepBlock.process b0 = (b, true)) /\
     (forall b0 b', gap -> PulseProcessor.block self = Some b0 ->
        SweepBlock.process b0 = (b', false) ->
        res = None /\
        PulseProcessor.block (fst out)
        = Some (push_all SweepBlock.new
                  [(sensor, ts, width, offset, channel, slow_bit)]))).
Proof.
  intros out gap. split; [apply pulse_push_latest|].
  intros Hs Hlen. exists (snd (PulseProcessor.close_block self ts)).
  split; [apply pulse_push_result; assumption|].
  split; [intros b; apply close_block_result|].
  intros b0 b' Hgap Hb0 Hp. split; [|apply pulse_push_restart; assumption].
  destruct (snd (PulseProcessor.close_block self ts)) as [b|] eqn:E;
    [|reflexivity].
  apply close_block_result in E as (_ & b1 & Hb1 & Hp1).
  rewrite Hb0 in Hb1. injection Hb1 as <-. rewrite Hp in Hp1. discriminate.
Qed.

Lemma pulse_push_emits_witness :
  0 <= 0 < 4 /\
  PulseProcessor.latest_pulse
    (fst (PulseProcessor.push (PulseProcessor.mk (Some good_block) 1020)
            0 101000 50 0 (Some 3) (Some 1))) = 101000 /\
  snd (PulseProcessor.push (PulseProcessor.mk (Some good_block) 1020)
         0 101000 50 0 (Some 3) (Some 1)) = Return (Some first_sweep).
Proof.
  split; [lia|].
  destruct (pulse_push_emits (PulseProcessor.mk (Some good_block) 1020)
              0 101000 50 0 (Some 3) (Some 1)) as [Hlatest Hrest].
  split; [exact Hlatest|].
  destruct Hrest as (res & Hres & Hiff & _).
  - lia.
  - intros b H. injection H as <-. vm_compute. reflexivity.
  - rewrite Hres. f_equal. apply Hiff. split; [vm_compute; reflexivity|].
    exists good_block. split; [reflexivity | vm_compute; reflexivity].
Defined.

(** ** Blocks handed downstream (C10) *)

Lemma land_ones_range (x n : Z) : 0 <= n -> 0 <= Z.land x (Z.ones n) < 2 ^ n.
Proof.
  intros Hn. rewrite Z.land_ones by exact Hn. apply Z.mod_pos_bound.
  apply Z.pow_pos_nonneg; lia.
Qed.

(** The fields of a decoded frame: a sensor number 0..3 and no channel
    or a channel 0..15. *)
Lemma decode_fields (reading : list byte) (f : frame) :
  decode reading = Return f ->
  0 <= f_sensor f < 4 /\ channel_ok (f_channel f).
Proof.
  unfold decode.
  destruct (unpack_I (drop 9 reading ++ [x00])) as [timestamp|]; [|discriminate].
  rewrite bind_Return.
  destruct (unpack_I (take 3 (drop 6 reading) ++ [x00])) as [beam|]; [|discriminate].
  rewrite bind_Return.
  destruct (unpack_I (take 3 (drop 3 reading) ++ [x00])) as [offset_6|];
    [|discriminate].
  rewrite bind_Return.
  destruct (unpack_I (take 3 reading ++ [x00])) as [first_word|]; [|discriminate].
  rewrite bind_Return.
  destruct (Z.land (Z.shiftr first_word 7) 1 =? 0); intros H; injection H as <-;
    simpl.
  - split; [apply (land_ones_range first_word 2); lia|].
    pose proof (land_ones_range (Z.shiftr first_word 2) 5) as Hid.
    change (Z.ones 5) with 31 in Hid.
    rewrite Z.shiftr_div_pow2 by lia. change (2 ^ 1) with 2.
    specialize (Hid ltac:(lia)). change (2 ^ 5) with 32 in Hid.
    split; [apply Z.div_pos; lia|].
    apply Z.lt_succ_r, Z.div_lt_upper_bound; lia.
  - split; [apply (land_ones_range first_word 2); lia | exact I].
Qed.

Lemma pulse_push_inv (pp : PulseProcessor.t) (sensor ts width offset : Z)
    (channel slow_bit : option Z) :
  open_block_inv pp ->
  0 <= sensor < 4 -> channel_ok channel ->
  open_block_inv
    (fst (PulseProcessor.push pp sensor ts width offset channel slow_bit)).
Proof.
  intros Hinv Hs Hc. unfold PulseProcessor.push.
  destruct (PulseProcessor.close_block pp ts) as [blk res] eqn:Ec.
  set (blk1 := match blk with Some b => b | None => SweepBlock.new end).
  assert (Hblk : length (SweepBlock.sensors blk1) = 4%nat /\ unprocessed blk1 /\
                 forall i d, SweepBlock.sensors blk1 !! i = Some (Some d) ->
                             channel_ok (SweepData.channel d)).
  { unfold blk1. destruct blk as [b|].
    - unfold PulseProcessor.close_block in Ec. destruct (decide _) in Ec.
      + destruct (PulseProcessor.block pp) as [b0|]; [|discriminate].
        destruct (SweepBlock.process b0) as [b' ok]. discriminate.
      + injection Ec as Ec _. unfold open_block_inv in Hinv.
        rewrite Ec in Hinv. exact Hinv.
    - split; [reflexivity|]. split; [repeat split|].
      intros i d Hl. apply list_elem_of_lookup_2 in Hl. simpl in Hl.
      elem_cases Hl; discriminate. }
  destruct Hblk as (Hlen & Hun & Hch).
  destruct (SweepBlock.push blk1 sensor ts width offset channel slow_bit)
    as [[b' ok]|e] eqn:Ep.
  - apply push_cases in Ep as (k & Hk & [(d & _ & -> & ->) | (_ & -> & ->)]).
    + exact I.
    + unfold open_block_inv. simpl.
      split; [rewrite length_insert; exact Hlen|]. split; [exact Hun|].
      intros i d Hl. apply list_lookup_insert_Some in Hl
        as [(-> & Hd & _) | (_ & Hl)].
      * injection Hd as <-. exact Hc.
      * eapply Hch. exact Hl.
  - destruct (push_in_range blk1 sensor ts width offset channel slow_bit Hlen Hs)
      as (b' & ok & E). congruence.
Qed.

Lemma fed_inv (pp : PulseProcessor.t) : fed pp -> open_block_inv pp.
Proof.
  induction 1 as [|pp reading f _ IH _ Hd _]; [exact I|].
  apply decode_fields in Hd as [Hs Hc].
  apply pulse_push_inv; assumption.
Qed.

(** A block of the open-block invariant that finalizes is valid. *)
Lemma process_valid (b0 b : SweepBlock.t) :
  length (SweepBlock.sensors b0) = 4%nat ->
  unprocessed b0 ->
  (forall i d, SweepBlock.sensors b0 !! i = Some (Some d) ->
               channel_ok (SweepData.channel d)) ->
  SweepBlock.process b0 = (b, true) ->
  valid_block b.
Proof.
  intros Hlen (Hch0 & _) Hok Hp.
  apply process_true in Hp as (ds & ch & sb & k & ref & Hs & Hc & _ & ->).
  cbv zeta. split; [reflexivity|].
  rewrite Hs, length_map in Hlen.
  apply list_length_4 in Hlen as (d0 & d1 & d2 & d3 & ->).
  rewrite Hch0 in Hc.
  apply scan_channels_count in Hc as (Hn & Hall & _). simpl in Hn.
  destruct (identity_count_pos [d0; d1; d2; d3]) as (d & c & Hd & Hdc); [lia|].
  pose proof (Hall d c Hd Hdc) as ->.
  assert (Hc : 0 <= c <= 15).
  { apply list_elem_of_lookup_1 in Hd as [i Hi].
    specialize (Hok i d). rewrite Hs, list_lookup_fmap, Hi, Hdc in Hok.
    apply Hok. reflexivity. }
  eexists c, _, _, _, _. split; [exact Hc|]. split; [reflexivity|].
  split; [reflexivity|].
  repeat constructor; simpl;
    rewrite ?fill_offset_channel, ?fill_offset_slow_bit; reflexivity.
Qed.



(** The pulse processor of the main loop is always in a [fed] state. *)
Lemma main_step_fed (st : main_state) (reading : list byte) :
  length reading = 12%nat ->
  fed (pulse_processor st) ->
  fed (pulse_processor (fst (main_step st reading))).
Proof.
  intros Hlen Hfed. unfold main_step.
  destruct (decode reading) as [f|e] eqn:Ed; [|exact Hfed].
  destruct (decide (f_offset_6 f = 16777215)) as [Hsync|Hsync]; [exact Hfed|].
  pose proof (fed_push _ reading f Hfed Hlen Ed Hsync) as Hnext.
  destruct (PulseProcessor.push _ _ _ _ _ _ _) as [pp r]. simpl in Hnext.
  destruct r as [[block|]|e]; try exact Hnext.
  destruct (route (base_stations st) block). exact Hnext.
Qed.


Lemma processor_after_sweep_block :
  processor_after_sweep = PulseProcessor.mk (Some good_block) 1020.
Proof. vm_compute. reflexivity. Qed.


(** ** The main loop raises no exception *)

Lemma process_pairable (b0 b : SweepBlock.t) :
  length (SweepBlock.sensors b0) = 4%nat ->
  SweepBlock.process b0 = (b, true) -> pairable b.
Proof.
  intros Hlen Hp.
  apply process_true in Hp as (ds & ch & sb & k & ref & Hs & _ & _ & ->).
  cbv zeta. rewrite Hs, length_map in Hlen.
  apply list_length_4 in Hlen as (d0 & d1 & d2 & d3 & ->).
  destruct (fold_first_ts_Some
              (map (SweepBlock.fill_offset ref)
                 (map (SweepData.set_identity ch sb) [d0; d1; d2; d3]))
              (SweepBlock.ts b0)) as [t Ht]; [discriminate|].
  eexists _, _, _, _, t. split; [reflexivity | exact Ht].
Qed.

Lemma pairable_offset (b : SweepBlock.t) :
  pairable b -> exists o t, sensor_offset b 0 = Some o /\ SweepBlock.ts b = Some t.
Proof.
  intros (s0 & s1 & s2 & s3 & t & Hs & Ht).
  exists (SweepData.offset s0), t. unfold sensor_offset. rewrite Hs.
  split; [reflexivity | exact Ht].
Qed.

Lemma base_push_returns (self : BaseStation.t) (block : SweepBlock.t) :
  0 <= BaseStation.channel self < 16 ->
  (forall p, BaseStation.prev_block self = Some p -> pairable p) ->
  pairable block ->
  exists self' r,
    BaseStation.push self block = (self', Return r) /\
    BaseStation.channel self' = BaseStation.channel self /\
    (forall p, BaseStation.prev_block self' = Some p -> pairable p).
Proof.
  intros Hc Hprev Hb. unfold BaseStation.push.
  destruct (decide _) as [_|_]; [eauto|].
  destruct (BaseStation.prev_block self) as [p|] eqn:Ep.
  - specialize (Hprev p eq_refl).
    destruct (pairable_offset p Hprev) as (oa & ta & Hoa & Hta).
    destruct (pairable_offset block Hb) as (ob & tb & Hob & Htb).
    rewrite (is_second_sweep_value p block oa ob ta tb) by assumption.
    destruct Hprev as (a0 & a1 & a2 & a3 & _ & Ha & _).
    pose proof Hb as (b0 & b1 & b2 & b3 & _ & Hbs & _).
    destruct (periods_get _ Hc) as (period & _ & Hg).
    pose proof (process_returns self p block _ _ _ _ _ _ _ _ period
                  Hg Ha Hbs) as Hp.
    destruct (if decide (oa > ob) then false
              else if decide (ts_sub tb ta > 220000) then false else true).
    + rewrite Hp. eexists _, _. split; [reflexivity|]. split; [reflexivity|].
      intros q Hq. discriminate.
    + eexists _, _. split; [reflexivity|]. split; [reflexivity|].
      intros q Hq. injection Hq as <-. exact Hb.
  - eexists _, _. split; [reflexivity|]. split; [reflexivity|].
    intros q Hq. injection Hq as <-. exact Hb.
Qed.

Lemma route_returns (stations : list BaseStation.t) (block : SweepBlock.t) :
  stations_inv stations -> valid_block block -> pairable block ->
  exists stations' r,
    route stations block = (stations', Return r) /\ stations_inv stations'.
Proof.
  intros [Hlen Hst] (_ & c & s0 & s1 & s2 & s3 & Hc & Hch & _) Hb.
  unfold route. rewrite Hch, Hlen, py_index_nonneg by (simpl; lia).
  destruct (stations !! Z.to_nat c) as [bs|] eqn:El;
    [|apply lookup_ge_None in El; lia].
  destruct (Hst _ _ El) as [Hbc Hbp].
  destruct (base_push_returns bs block) as (bs' & r & -> & Hc' & Hp');
    [lia | exact Hbp | exact Hb|].
  eexists _, r. split; [reflexivity|].
  split; [rewrite length_insert; exact Hlen|].
  intros k bs0 Hk. apply list_lookup_insert_Some in Hk
    as [(<- & <- & _) | (_ & Hk)].
  - split; [congruence | exact Hp'].
  - apply Hst. exact Hk.
Qed.

Lemma unpack_I_4 (bs : list byte) :
  length bs = 4%nat -> unpack_I bs = Return (le_value bs).
Proof.
  intros H. unfold unpack_I.
  destruct (decide (length bs = 4%nat)); [reflexivity | contradiction].
Qed.

Lemma decode_returns (reading : list byte) :
  length reading = 12%nat -> exists f, decode reading = Return f.
Proof.
  intros Hlen. unfold decode.
  rewrite (unpack_I_4 (drop 9 reading ++ [x00]))
    by (rewrite length_app, length_drop, Hlen; reflexivity).
  rewrite bind_Return; cbv beta.
  rewrite (unpack_I_4 (take 3 (drop 6 reading) ++ [x00]))
    by (rewrite length_app, length_take, length_drop, Hlen; reflexivity).
  rewrite bind_Return; cbv beta.
  rewrite (unpack_I_4 (take 3 (drop 3 reading) ++ [x00]))
    by (rewrite length_app, length_take, length_drop, Hlen; reflexivity).
  rewrite bind_Return; cbv beta.
  rewrite (unpack_I_4 (take 3 reading ++ [x00]))
    by (rewrite length_app, length_take, Hlen; reflexivity).
  rewrite bind_Return; cbv beta zeta.
  destruct (_ =? 0); eauto.
Qed.

Lemma main_init_stations : stations_inv (base_stations main_init).
Proof.
  split; [reflexivity|]. intros k bs Hk. simpl in Hk.
  assert (Hlt : (k < 16)%nat) by (apply lookup_lt_Some in Hk; exact Hk).
  do 16 (destruct k as [|k];
         [injection Hk as <-; split; [reflexivity | discriminate]|]).
  lia.
Qed.

Lemma main_step_returns (st : main_state) (reading : list byte) :
  length reading = 12%nat ->
  fed (pulse_processor st) -> stations_inv (base_stations st) ->
  exists st' r,
    main_step st reading = (st', Return r) /\
    stations_inv (base_stations st').
Proof.
  intros Hlen Hfed Hst. unfold main_step.
  destruct (decode_returns reading Hlen) as [f Hd]. rewrite Hd.
  destruct (decide _) as [_|_]; [eauto|].
  pose proof (fed_inv _ Hfed) as Hinv.
  pose proof (decode_fields _ _ Hd) as [Hs _].
  assert (Hl4 : forall b0, PulseProcessor.block (pulse_processor st) = Some b0 ->
                           length (SweepBlock.sensors b0) = 4%nat).
  { intros b0 Hb0. unfold open_block_inv in Hinv. rewrite Hb0 in Hinv.
    apply Hinv. }
  pose proof (pulse_push_result (pulse_processor st) (f_sensor f) (f_timestamp f)
                (f_width f) (f_offset f) (f_channel f) (f_slow_bit f) Hs Hl4)
    as Hres.
  destruct (PulseProcessor.push _ _ _ _ _ _ _) as [pp r]. simpl in Hres.
  subst r.
  destruct (snd (PulseProcessor.close_block (pulse_processor st) (f_timestamp f)))
    as [block|] eqn:Ec; [|eauto].
  apply close_block_result in Ec as (_ & b0 & Hb0 & Hp).
  unfold open_block_inv in Hinv. rewrite Hb0 in Hinv.
  destruct Hinv as (Hl & Hun & Hok).
  destruct (route_returns (base_stations st) block Hst) as (l' & r & -> & Hl').
  - exact (process_valid b0 block Hl Hun Hok Hp).
  - exact (process_pairable b0 block Hl Hp).
  - eauto.
Qed.

(** X19: From its initial state the main loop runs through any stream of
    readings without an exception. *)
Lemma main_loop_no_exception (stream : list (list byte)) :
  snd (main_loop main_init stream) = None.
Proof.
  assert (G : forall st, fed (pulse_processor st) ->
                stations_inv (base_stations st) ->
                snd (main_loop st stream) = None).
  { induction stream as [|reading rest IH]; intros st Hfed Hst; [reflexivity|].
    simpl. destruct (decide (length reading = 12%nat)) as [Hlen|_];
      [|reflexivity].
    pose proof (main_step_fed st reading Hlen Hfed) as Hfed'.
    destruct (main_step_returns st reading Hlen Hfed Hst) as (st' & r & E & Hst').
    rewrite E in Hfed' |- *. simpl in Hfed'.
    specialize (IH st' Hfed' Hst').
    destruct (main_loop st' rest) as [[st'' outs] e]. exact IH. }
  apply G; [apply fed_new | apply main_init_stations].
Qed.

(** ** One revolution, end to end *)

(** The main loop prints one angle result for the nine frames of
    [revolution]: that of channel 3, by the angle formula on the offsets
    of the two sweeps and the period of channel 3. *)
Lemma main_loop_revolution :
  snd (fst (main_loop main_init revolution)) =
  [{| Angles.data :=
        [Some (angle_formula (949000 / 2) 3990 103990);
         Some (angle_formula (949000 / 2) 4000 104000);
         Some (angle_formula (949000 / 2) 3985 103985);
         Some (angle_formula (949000 / 2) 4010 104010)];
      Angles.channel := 3 |}].
Proof.
  lazy -[Rplus Rminus Rmult Rdiv Rinv IZR PI atan sin tan].
  replace (60 * (PI / 180) / 2)%R with (PI / 6)%R by field.
  replace (120 * (PI / 180))%R with (2 * PI / 3)%R by field.
  reflexivity.
Qed.

(** ** Further properties of [SweepBlock.push] *)

(** X1: A push on a slot of the block fills it when it is empty, leaving the
    other slots and the derived fields alone, and refuses it when it is
    filled, leaving the block as it was. *)
Theorem push_slot (b : SweepBlock.t) (sensor ts width offset : Z)
    (channel slow_bit : option Z) (o : option SweepData.t) :
  0 <= sensor ->
  SweepBlock.sensors b !! Z.to_nat sensor = Some o ->
  match o with
  | Some _ =>
      SweepBlock.push b sensor ts width offset channel slow_bit = Return (b, false)
  | None =>
      exists b',
        SweepBlock.push b sensor ts width offset channel slow_bit = Return (b', true) /\
        SweepBlock.sensors b' !! Z.to_nat sensor
        = Some (Some (SweepData.mk ts width offset channel slow_bit)) /\
        (forall j, j <> Z.to_nat sensor ->
                   SweepBlock.sensors b' !! j = SweepBlock.sensors b !! j) /\
        length (SweepBlock.sensors b') = length (SweepBlock.sensors b) /\
        SweepBlock.channel b' = SweepBlock.channel b /\
        SweepBlock.slow_bit b' = SweepBlock.slow_bit b /\
        SweepBlock.ts b' = SweepBlock.ts b /\
        SweepBlock.is_valid b' = SweepBlock.is_valid b /\
        SweepBlock.offset_sensor b' = SweepBlock.offset_sensor b
  end.
Proof.
  intros Hs Hl. pose proof (lookup_lt_Some _ _ _ Hl) as Hlt.
  unfold SweepBlock.push. rewrite py_index_nonneg by lia.
  rewrite bind_Return, Hl. destruct o as [d|]; [reflexivity|].
  eexists. split; [reflexivity|]. simpl.
  split; [apply list_lookup_insert_eq; exact Hlt|].
  split; [intros j Hj; apply list_lookup_insert_ne; congruence|].
  split; [apply length_insert|]. repeat split.
Qed.

Lemma push_slot_witness :
  exists b',
    SweepBlock.push short_block 3 1020 51 0 (Some 3) (Some 1) = Return (b', true) /\
    SweepBlock.sensors b' !! 3%nat
    = Some (Some (SweepData.mk 1020 51 0 (Some 3) (Some 1))) /\
    (forall j, j <> 3%nat ->
               SweepBlock.sensors b' !! j = SweepBlock.sensors short_block !! j) /\
    length (SweepBlock.sensors b') = length (SweepBlock.sensors short_block) /\
    SweepBlock.channel b' = SweepBlock.channel short_block /\
    SweepBlock.slow_bit b' = SweepBlock.slow_bit short_block /\
    SweepBlock.ts b' = SweepBlock.ts short_block /\
    SweepBlock.is_valid b' = SweepBlock.is_valid short_block /\
    SweepBlock.offset_sensor b' = SweepBlock.offset_sensor short_block.
Proof.
  apply (push_slot short_block 3 1020 51 0 (Some 3) (Some 1) None).
  - lia.
  - vm_compute. reflexivity.
Defined.

(** X2: The sensor number is a Python list index: outside [-n, n) for the
    [n] slots of the block the push raises [IndexError], and a negative
    number in range addresses the slot counted from the end. *)
Theorem push_index (b : SweepBlock.t) (sensor ts width offset : Z)
    (channel slow_bit : option Z) :
  let n := Z.of_nat (length (SweepBlock.sensors b)) in
  (sensor < - n \/ n <= sensor ->
   SweepBlock.push b sensor ts width offset channel slow_bit = Raise IndexError) /\
  (- n <= sensor < 0 ->
   SweepBlock.push b sensor ts width offset channel slow_bit
   = SweepBlock.push b (n + sensor) ts width offset channel slow_bit).
Proof.
  intros n. unfold SweepBlock.push, py_index. fold n. split; intros H.
  - destruct (decide (0 <= sensor < n)); [lia|].
    destruct (decide (- n <= sensor < 0)); [lia|]. reflexivity.
  - destruct (decide (0 <= sensor < n)); [lia|].
    destruct (decide (- n <= sensor < 0)); [|lia].
    destruct (decide (0 <= n + sensor < n)); [|lia]. reflexivity.
Qed.

Lemma push_index_witness :
  SweepBlock.push SweepBlock.new 4 1000 50 0 None None = Raise IndexError /\
  SweepBlock.push SweepBlock.new (-1) 1000 50 0 None None
  = SweepBlock.push SweepBlock.new 3 1000 50 0 None None.
Proof.
  split.
  - apply (proj1 (push_index SweepBlock.new 4 1000 50 0 None None)).
    simpl. lia.
  - apply (proj2 (push_index SweepBlock.new (-1) 1000 50 0 None None)).
    simpl. lia.
Defined.

(** ** Further properties of [SweepBlock.process] *)

Lemma Forall2_same_pulse_map (f : SweepData.t -> SweepData.t)
    (ds : list SweepData.t) :
  (forall d, same_pulse (Some d) (Some (f d))) ->
  Forall2 same_pulse (map Some ds) (map Some (map f ds)).
Proof.
  intros Hf. induction ds as [|d ds IH]; simpl; constructor; auto.
Qed.

Lemma same_pulse_set_identity ch sb d :
  same_pulse (Some d) (Some (SweepData.set_identity ch sb d)).
Proof. simpl. auto. Qed.

Lemma same_pulse_fill ch sb ref d :
  same_pulse (Some d)
    (Some (SweepBlock.fill_offset ref (SweepData.set_identity ch sb d))).
Proof.
  simpl. rewrite fill_offset_ts. split; [reflexivity|].
  unfold SweepBlock.fill_offset. destruct (decide _) as [E|E]; simpl in *.
  - split; [reflexivity|]. intros H. contradiction.
  - auto.
Qed.

(** X3: Whatever its outcome, [process] keeps the slots of the block: an
    empty slot stays empty, and a pulse keeps its timestamp, its width
    and its offset where that is not zero. *)
Theorem process_keeps_pulses (b : SweepBlock.t) :
  Forall2 same_pulse (SweepBlock.sensors b)
    (SweepBlock.sensors (fst (SweepBlock.process b))).
Proof.
  assert (Hrefl : forall l, Forall2 same_pulse l l).
  { induction l as [|[d|] l IH]; constructor; simpl; auto. }
  unfold SweepBlock.process.
  destruct (SweepBlock.all_present (SweepBlock.sensors b)) as [ds|] eqn:Ea;
    [|apply Hrefl].
  apply all_present_Some in Ea.
  destruct (SweepBlock.scan_channels ds _ _ _) as [[ch sb] [n|]];
    [|apply Hrefl].
  destruct (decide (n ≠ 3%nat)); [apply Hrefl|].
  destruct (SweepBlock.scan_offsets _ _ _) as [[[k ref]|] ok]; destruct ok;
    simpl; rewrite Ea;
    try (apply Forall2_same_pulse_map; intros d; apply same_pulse_set_identity).
  rewrite (map_map (SweepData.set_identity ch sb) (SweepBlock.fill_offset ref)).
  apply (Forall2_same_pulse_map
           (fun d => SweepBlock.fill_offset ref (SweepData.set_identity ch sb d))).
  intros d. apply same_pulse_fill.
Qed.

(** X4: A block that [process] has finalized does not finalize again: on the
    finalized block [process] returns [False] and changes nothing. *)
Theorem process_again (b b' : SweepBlock.t) :
  length (SweepBlock.sensors b) = 4%nat ->
  SweepBlock.process b = (b', true) ->
  SweepBlock.process b' = (b', false).
Proof.
  intros Hlen Hp.
  apply process_true in Hp as (ds & ch & sb & k & ref & Hs & Hc & _ & ->).
  cbv zeta. rewrite Hs, length_map in Hlen.
  apply scan_channels_count in Hc as (Hn & Hall & _). simpl in Hn.
  destruct (identity_count_pos ds) as (d0 & c & Hd0 & Hc0); [lia|].
  pose proof (Hall d0 c Hd0 Hc0) as ->.
  set (ds' := map (SweepBlock.fill_offset ref)
                (map (SweepData.set_identity (Some c) sb) ds)).
  assert (Hch : forall d x, d ∈ ds' -> SweepData.channel d = Some x -> x = c).
  { intros d x Hd Hx. apply list_elem_of_fmap in Hd as (d1 & -> & Hd1).
    apply list_elem_of_fmap in Hd1 as (d2 & -> & _).
    rewrite fill_offset_channel in Hx. simpl in Hx. congruence. }
  assert (Hcount : identity_count ds' = 4%nat).
  { rewrite identity_count_all; [unfold ds'; rewrite !length_map; exact Hlen|].
    apply Forall_forall. intros d Hd.
    apply list_elem_of_fmap in Hd as (d1 & -> & Hd1).
    apply list_elem_of_fmap in Hd1 as (d2 & -> & _).
    unfold has_identity. rewrite fill_offset_channel. reflexivity. }
  destruct (scan_channels_agree ds' (Some c) sb 0 c Hch) as (ch' & sb' & E);
    [right; reflexivity|].
  pose proof (scan_channels_count _ _ _ _ _ _ _ E) as (_ & _ & Hkeep & _).
  destruct (Hkeep c eq_refl) as [-> ->]. rewrite Hcount in E.
  unfold SweepBlock.process. simpl SweepBlock.sensors.
  rewrite (proj2 (all_present_Some (map Some ds') ds') eq_refl).
  simpl SweepBlock.channel. simpl SweepBlock.slow_bit. rewrite E.
  destruct (decide ((0 + 4)%nat ≠ 3%nat)) as [_|Hn4]; [reflexivity|].
  exfalso. apply Hn4. discriminate.
Qed.

Lemma process_again_witness :
  SweepBlock.process first_sweep = (first_sweep, false).
Proof.
  apply (process_again good_block first_sweep).
  - vm_compute. reflexivity.
  - vm_compute. reflexivity.
Defined.

Lemma offset_count_unique (ds : list SweepData.t) (k : nat) (d : SweepData.t) :
  offset_count ds = 1%nat ->
  ds !! k = Some d -> has_offset d = true ->
  forall j d', j <> k -> ds !! j = Some d' -> SweepData.offset d' = 0.
Proof.
  revert k. induction ds as [|d0 ds IH]; intros k H1 Hk Hd j d' Hj Hl;
    [discriminate|].
  rewrite offset_count_cons in H1.
  assert (Hzero : offset_count ds = 0%nat ->
                  forall i x, ds !! i = Some x -> has_offset x = false).
  { clear. induction ds as [|y ds IH]; intros H0 i x Hi; [discriminate|].
    rewrite offset_count_cons in H0. destruct (has_offset y) eqn:Ey; [simpl in H0; lia|].
    destruct i as [|i]; simpl in Hi; [congruence|]. eapply IH; eauto. }
  destruct k as [|k]; simpl in Hk.
  - injection Hk as ->. rewrite Hd in H1.
    destruct j as [|j]; [contradiction|]. simpl in Hl.
    apply has_offset_false. eapply Hzero; [simpl in H1; lia | exact Hl].
  - destruct (has_offset d0) eqn:E0.
    + exfalso. assert (H0 : offset_count ds = 0%nat) by (simpl in H1; lia).
      pose proof (Hzero H0 k d Hk). congruence.
    + destruct j as [|j]; simpl in Hl.
      * injection Hl as <-. apply has_offset_false. exact E0.
      * assert (H1' : offset_count ds = 1%nat) by (simpl in H1; lia).
        apply (IH k H1' Hk Hd j d'); [congruence | exact Hl].
Qed.

(** X5: After a successful [process] the block's [offset_sensor] is the slot
    whose pulse came with the nonzero offset; the pulses of all other
    slots came with offset 0, and the reference pulse is as it was but
    for the identity of the block. *)
Theorem process_offset_sensor (b b' : SweepBlock.t) :
  SweepBlock.process b = (b', true) ->
  exists k d,
    SweepBlock.offset_sensor b' = Some k /\
    SweepBlock.sensors b !! k = Some (Some d) /\
    SweepData.offset d <> 0 /\
    (forall j d', j <> k -> SweepBlock.sensors b !! j = Some (Some d') ->
                  SweepData.offset d' = 0) /\
    SweepBlock.sensors b' !! k
    = Some (Some (SweepData.set_identity (SweepBlock.channel b')
                    (SweepBlock.slow_bit b') d)).
Proof.
  intros Hp. pose proof (process_counts b b' Hp) as [_ H1].
  apply process_true in Hp as (ds & ch & sb & k & ref & Hs & _ & Ho & ->).
  cbv zeta. rewrite (block_data_filled b ds Hs) in H1.
  apply scan_offsets_spec in Ho. simpl in Ho.
  rewrite offset_count_set_identity, H1 in Ho.
  destruct Ho as (_ & k' & ref' & [= <- <-] & _ & Hl & Href).
  replace (k - 0)%nat with k in Hl by lia.
  rewrite list_lookup_fmap in Hl.
  destruct (ds !! k) as [d|] eqn:Ed; [|discriminate].
  simpl in Hl. injection Hl as <-.
  assert (Hd : has_offset d = true) by exact Href.
  exists k, d. split; [reflexivity|].
  split; [rewrite Hs, list_lookup_fmap, Ed; reflexivity|].
  split; [apply has_offset_true; exact Hd|]. split.
  - intros j d' Hj Hlj. rewrite Hs, list_lookup_fmap in Hlj.
    destruct (ds !! j) as [x|] eqn:Ex; [|discriminate].
    simpl in Hlj. injection Hlj as ->.
    exact (offset_count_unique ds k d H1 Ed Hd j d' Hj Ex).
  - simpl. rewrite !list_lookup_fmap, Ed. simpl.
    rewrite fill_offset_keep; [reflexivity|].
    simpl. apply has_offset_true. exact Hd.
Qed.

Lemma process_offset_sensor_witness :
  exists k d,
    SweepBlock.offset_sensor first_sweep = Some k /\
    SweepBlock.sensors good_block !! k = Some (Some d) /\
    SweepData.offset d <> 0 /\
    (forall j d', j <> k -> SweepBlock.sensors good_block !! j = Some (Some d') ->
                  SweepData.offset d' = 0) /\
    SweepBlock.sensors first_sweep !! k
    = Some (Some (SweepData.set_identity (SweepBlock.channel first_sweep)
                    (SweepBlock.slow_bit first_sweep) d)).
Proof.
  apply (process_offset_sensor good_block first_sweep).
  vm_compute. reflexivity.
Defined.

(** X6: A block that finalizes takes its channel and its slow bit from the
    first sensor, in slot order, that decoded an identity. *)
Theorem process_first_identity (b b' : SweepBlock.t) :
  SweepBlock.channel b = None ->
  SweepBlock.process b = (b', true) ->
  exists d,
    first_decoded b = Some d /\
    SweepBlock.channel b' = SweepData.channel d /\
    SweepBlock.slow_bit b' = SweepData.slow_bit d.
Proof.
  intros Hch Hp. pose proof (process_counts b b' Hp) as [H3 _].
  apply process_true in Hp as (ds & ch & sb & k & ref & Hs & Hc & _ & ->).
  cbv zeta. unfold first_decoded. rewrite (block_data_filled b ds Hs) in *.
  rewrite Hch in Hc. apply scan_channels_first in Hc.
  destruct (List.find has_identity ds) as [d|] eqn:Ef.
  - exists d. split; [reflexivity | exact Hc].
  - exfalso. destruct (identity_count_pos ds) as (d & c & Hd & Hdc); [lia|].
    apply list_elem_of_In in Hd.
    pose proof (find_none _ _ Ef d Hd) as Hn.
    unfold has_identity in Hn. rewrite Hdc in Hn. discriminate.
Qed.

Lemma process_first_identity_witness :
  exists d,
    first_decoded mixed_slow_bit_block = Some d /\
    SweepBlock.channel (fst (SweepBlock.process mixed_slow_bit_block))
    = SweepData.channel d /\
    SweepBlock.slow_bit (fst (SweepBlock.process mixed_slow_bit_block))
    = SweepData.slow_bit d.
Proof.
  apply (process_first_identity mixed_slow_bit_block).
  - vm_compute. reflexivity.
  - vm_compute. reflexivity.
Defined.

Lemma process_ts_minimum_witness :
  SweepBlock.ts first_sweep = Some (minimum 1000 [1010; 995; 1020]).
Proof.
  apply (process_ts_minimum good_block first_sweep
           (SweepData.mk 1000 50 0 (Some 3) (Some 1))
           (SweepData.mk 1010 52 4000 (Some 3) (Some 1))
           (SweepData.mk 995 49 0 None None)
           (SweepData.mk 1020 51 0 (Some 3) (Some 1))).
  - vm_compute. reflexivity.
  - vm_compute. reflexivity.
  - repeat constructor; simpl; lia.
  - vm_compute. reflexivity.
Defined.

(** ** Further wrap-around arithmetic *)

(** X8: For 24-bit [a] and [b], adding [b] back to the wrapping difference
    of [a] and [b] gives [a], and the wrapping difference is 0 exactly
    when the two are equal. *)
Theorem ts_add_ts_sub (a b : Z) :
  0 <= a < 2 ^ 24 -> 0 <= b < 2 ^ 24 ->
  ts_add (ts_sub a b) b = a /\ (ts_sub a b = 0 <-> a = b).
Proof.
  intros Ha Hb. rewrite ts_add_mod, !ts_sub_mod. split.
  - rewrite Zplus_mod_idemp_l. replace (a - b + b) with a by lia.
    apply Z.mod_small. exact Ha.
  - split; intros H; [|subst; rewrite Z.sub_diag; reflexivity].
    change (2 ^ 24) with 16777216 in *.
    Z.div_mod_to_equations. lia.
Qed.

Lemma ts_add_ts_sub_witness :
  ts_add (ts_sub 5 16777215) 16777215 = 5 /\ (ts_sub 5 16777215 = 0 <-> 5 = 16777215).
Proof. apply (ts_add_ts_sub 5 16777215); lia. Defined.

(** ** Further properties of [PulseProcessor.push] *)

(** X9: Within the aggregation window (a wrapping delta of at most 10000 to
    the latest pulse) a pulse for an empty slot of the open block is put
    there, and a pulse for a slot that is filled drops the whole open
    block; nothing is returned either way. *)
Theorem pulse_push_window (self : PulseProcessor.t) (b : SweepBlock.t)
    (sensor ts width offset : Z) (channel slow_bit : option Z)
    (o : option SweepData.t) :
  ts_sub ts (PulseProcessor.latest_pulse self) <= 10000 ->
  PulseProcessor.block self = Some b ->
  0 <= sensor ->
  SweepBlock.sensors b !! Z.to_nat sensor = Some o ->
  PulseProcessor.push self sensor ts width offset channel slow_bit =
  ({| PulseProcessor.block :=
        match o with
        | Some _ => None
        | None =>
            Some (SweepBlock.set_sensors
                    (<[Z.to_nat sensor :=
                         Some (SweepData.mk ts width offset channel slow_bit)]>
                       (SweepBlock.sensors b)) b)
        end;
      PulseProcessor.latest_pulse := ts |}, Return None).
Proof.
  intros Hgap Hb Hs Hl. pose proof (lookup_lt_Some _ _ _ Hl) as Hlt.
  unfold PulseProcessor.push, PulseProcessor.close_block.
  destruct (decide (ts_sub ts (PulseProcessor.latest_pulse self) > 10000));
    [lia|].
  rewrite Hb. unfold SweepBlock.push.
  rewrite py_index_nonneg by lia. rewrite bind_Return, Hl.
  destruct o as [d|]; reflexivity.
Qed.

Lemma pulse_push_window_witness :
  PulseProcessor.push (PulseProcessor.mk (Some short_block) 1010)
    1 1012 52 4000 (Some 3) (Some 1)
  = (PulseProcessor.mk None 1012, Return None).
Proof.
  apply (pulse_push_window (PulseProcessor.mk (Some short_block) 1010)
           short_block 1 1012 52 4000 (Some 3) (Some 1)
           (Some (SweepData.mk 1010 52 4000 (Some 3) (Some 1)))).
  - vm_compute. discriminate.
  - reflexivity.
  - lia.
  - vm_compute. reflexivity.
Defined.

(** ** Further properties of [BaseStation] *)

(** X11: What a [push] can do to a tracker: it keeps the channel; it returns
    angles only for a block of its channel when a block was pending, and
    is empty afterwards; when it returns nothing the tracker is as it
    was on a channel mismatch and holds the pushed block otherwise; an
    exception leaves the tracker as it was. *)
Theorem push_outcomes (self : BaseStation.t) (block : SweepBlock.t) :
  let self' := fst (BaseStation.push self block) in
  BaseStation.channel self' = BaseStation.channel self /\
  match snd (BaseStation.push self block) with
  | Return (Some angles) =>
      SweepBlock.channel block = Some (BaseStation.channel self) /\
      (exists pending, BaseStation.prev_block self = Some pending /\
         BaseStation.process self pending block = Return angles) /\
      BaseStation.prev_block self' = None
  | Return None =>
      (SweepBlock.channel block <> Some (BaseStation.channel self) /\
       self' = self) \/
      (SweepBlock.channel block = Some (BaseStation.channel self) /\
       BaseStation.prev_block self' = Some block)
  | Raise _ => self' = self
  end.
Proof.
  unfold BaseStation.push.
  destruct (decide (SweepBlock.channel block ≠ Some (BaseStation.channel self)))
    as [Hne|He].
  - simpl. split; [reflexivity|]. left. split; [exact Hne | reflexivity].
  - assert (Hch : SweepBlock.channel block = Some (BaseStation.channel self)).
    { destruct (decide (SweepBlock.channel block
                        = Some (BaseStation.channel self))) as [E|E];
        [exact E | contradiction]. }
    destruct (BaseStation.prev_block self) as [prev|] eqn:Ep.
    + destruct (BaseStation.is_second_sweep prev block) as [[|]|e].
      * destruct (BaseStation.process self prev block) as [r|e] eqn:Er; simpl.
        -- split; [reflexivity|]. split; [exact Hch|]. split; [|reflexivity].
           exists prev. split; [reflexivity | exact Er].
        -- split; reflexivity.
      * simpl. split; [reflexivity|]. right. split; [exact Hch | reflexivity].
      * simpl. split; reflexivity.
    + simpl. split; [reflexivity|]. right. split; [exact Hch | reflexivity].
Qed.

(** X12: Two pushes compose: an empty tracker of a channel 0..15 that is
    pushed the two finalized sweeps of its channel, the second within
    both bounds of the first, returns nothing for the first, the angles
    of the pair for the second, and is empty again. *)
Theorem push_pair (c : Z) (a b : SweepBlock.t) (oa ob ta tb : Z) :
  0 <= c < 16 ->
  finalized a -> finalized b ->
  SweepBlock.channel a = Some c -> SweepBlock.channel b = Some c ->
  sensor_offset a 0 = Some oa -> sensor_offset b 0 = Some ob ->
  SweepBlock.ts a = Some ta -> SweepBlock.ts b = Some tb ->
  oa <= ob -> ts_sub tb ta <= 220000 ->
  let first := BaseStation.push (BaseStation.new c) a in
  let second := BaseStation.push (fst first) b in
  snd first = Return None /\
  fst second = BaseStation.new c /\
  exists angles,
    BaseStation.process (BaseStation.new c) a b = Return angles /\
    snd second = Return (Some angles).
Proof.
  intros Hc Hfa Hfb Hca Hcb Hoa Hob Hta Htb Hoff Hdt.
  apply finalized_shape in Hfa as (_ & a0 & a1 & a2 & a3 & _ & _ & Ha & _).
  apply finalized_shape in Hfb as (_ & b0 & b1 & b2 & b3 & _ & _ & Hb & _).
  destruct (periods_get _ Hc) as (period & _ & Hg).
  pose proof (process_returns (BaseStation.new c) a b _ _ _ _ _ _ _ _ period
                Hg Ha Hb) as Hp.
  pose proof (process_returns (BaseStation.mk c (Some a)) a b _ _ _ _ _ _ _ _
                period Hg Ha Hb) as Hp'.
  assert (E1 : BaseStation.push (BaseStation.new c) a
               = (BaseStation.mk c (Some a), Return None)).
  { unfold BaseStation.push. simpl.
    destruct (decide (SweepBlock.channel a ≠ Some c)); [contradiction|].
    reflexivity. }
  cbv zeta. rewrite E1. simpl fst. simpl snd.
  split; [reflexivity|].
  unfold BaseStation.push. simpl BaseStation.channel. simpl BaseStation.prev_block.
  destruct (decide (SweepBlock.channel b ≠ Some c)); [contradiction|].
  rewrite (is_second_sweep_value a b oa ob ta tb) by assumption.
  destruct (decide (oa > ob)); [lia|].
  destruct (decide (ts_sub tb ta > 220000)); [lia|].
  rewrite Hp'. simpl. split; [reflexivity|].
  eexists. split; [exact Hp | reflexivity].
Qed.

Lemma push_pair_witness :
  snd (BaseStation.push (BaseStation.new 3) first_sweep) = Return None /\
  fst (BaseStation.push (fst (BaseStation.push (BaseStation.new 3) first_sweep))
         second_sweep) = BaseStation.new 3 /\
  exists angles,
    BaseStation.process (BaseStation.new 3) first_sweep second_sweep
    = Return angles /\
    snd (BaseStation.push (fst (BaseStation.push (BaseStation.new 3) first_sweep))
           second_sweep) = Return (Some angles).
Proof.
  apply (push_pair 3 first_sweep second_sweep 3990 103990 995 100995).
  - lia.
  - exact first_sweep_finalized.
  - exact second_sweep_finalized.
  - vm_compute. reflexivity.
  - vm_compute. reflexivity.
  - vm_compute. reflexivity.
  - vm_compute. reflexivity.
  - vm_compute. reflexivity.
  - vm_compute. reflexivity.
  - lia.
  - vm_compute. discriminate.
Defined.

Lemma process_sensor_Raise (self : BaseStation.t) (a b : SweepBlock.t)
    (e : exn) (i : Z) :
  BaseStation.process_sensor self a b (Raise e) i = Raise e.
Proof. reflexivity. Qed.

(** One turn of the loop of [process]: a missing slot in either block
    raises [AttributeError]. *)
Lemma process_sensor_cases (self : BaseStation.t) (a b : SweepBlock.t)
    (res : Angles.t) (i : Z) (oa ob : option SweepData.t) (period : R) :
  0 <= i < Z.of_nat (length (Angles.data res)) ->
  SweepBlock.sensors a !! Z.to_nat i = Some oa ->
  SweepBlock.sensors b !! Z.to_nat i = Some ob ->
  py_get PERIODS (BaseStation.channel self) = Return period ->
  match oa, ob with
  | Some _, Some _ =>
      exists res',
        BaseStation.process_sensor self a b (Return res) i = Return res' /\
        length (Angles.data res') = length (Angles.data res)
  | _, _ =>
      BaseStation.process_sensor self a b (Return res) i = Raise AttributeError
  end.
Proof.
  intros Hi Ha Hb Hp. destruct oa as [da|].
  - destruct ob as [db|].
    + rewrite (process_sensor_ok self a b res i da db period Hi Ha Hb Hp).
      eexists. split; [reflexivity|]. simpl. apply length_insert.
    + unfold BaseStation.process_sensor.
      rewrite bind_Return; cbv beta.
      rewrite (py_get_nonneg (SweepBlock.sensors a) i (Some da))
        by (lia || exact Ha).
      rewrite bind_Return; cbv beta. rewrite attr_Some.
      rewrite bind_Return; cbv beta.
      rewrite (py_get_nonneg (SweepBlock.sensors b) i None) by (lia || exact Hb).
      reflexivity.
  - unfold BaseStation.process_sensor.
    rewrite bind_Return; cbv beta.
    rewrite (py_get_nonneg (SweepBlock.sensors a) i None) by (lia || exact Ha).
    reflexivity.
Qed.

(** X13: The angle model needs full blocks and a channel of the period table:
    on two blocks of four slots, a slot that is empty in either block
    makes [process] raise [AttributeError], and with all slots filled a
    channel outside [-16, 16) makes it raise [IndexError]. *)
Theorem process_raises (self : BaseStation.t) (a b : SweepBlock.t) :
  length (SweepBlock.sensors a) = 4%nat ->
  length (SweepBlock.sensors b) = 4%nat ->
  ((None ∈ SweepBlock.sensors a \/ None ∈ SweepBlock.sensors b) ->
   - 16 <= BaseStation.channel self < 16 ->
   BaseStation.process self a b = Raise AttributeError) /\
  (None ∉ SweepBlock.sensors a -> None ∉ SweepBlock.sensors b ->
   BaseStation.channel self < - 16 \/ 16 <= BaseStation.channel self ->
   BaseStation.process self a b = Raise IndexError).
Proof.
  intros Hla Hlb.
  apply list_length_4 in Hla as (a0 & a1 & a2 & a3 & Ha).
  apply list_length_4 in Hlb as (b0 & b1 & b2 & b3 & Hb).
  split.
  - intros Hmiss Hc.
    assert (Hg : exists period,
               py_get PERIODS (BaseStation.channel self) = Return period).
    { unfold py_get, py_index. simpl length.
      destruct (decide (0 <= BaseStation.channel self < Z.of_nat 16)) as [H|H].
      - rewrite bind_Return.
        destruct (lookup_lt_is_Some_2 PERIODS
                    (Z.to_nat (BaseStation.channel self))) as [p Hp];
          [simpl; lia|]. rewrite Hp. eauto.
      - destruct (decide (- Z.of_nat 16 <= BaseStation.channel self < 0))
          as [H'|H']; [|lia].
        rewrite bind_Return.
        destruct (lookup_lt_is_Some_2 PERIODS
                    (Z.to_nat (Z.of_nat 16 + BaseStation.channel self)))
          as [p Hp]; [simpl; lia|]. rewrite Hp. eauto. }
    destruct Hg as [period Hg].
    assert (Hsome : ~ (is_Some a0 /\ is_Some a1 /\ is_Some a2 /\ is_Some a3 /\
                       is_Some b0 /\ is_Some b1 /\ is_Some b2 /\ is_Some b3)).
    { intros ([x0 ->] & [x1 ->] & [x2 ->] & [x3 ->] &
              [y0 ->] & [y1 ->] & [y2 ->] & [y3 ->]).
      rewrite Ha, Hb in Hmiss.
      destruct Hmiss as [H|H]; elem_cases H; discriminate. }
    unfold BaseStation.process. cbn [fold_left].
    pose proof (process_sensor_cases self a b (Angles.new (BaseStation.channel self))
                  0 a0 b0 period) as H0.
    rewrite Ha, Hb in H0. specialize (H0 ltac:(simpl; lia) eq_refl eq_refl Hg).
    destruct a0 as [x0|]; [destruct b0 as [y0|]|];
      try (rewrite H0, !process_sensor_Raise; reflexivity).
    destruct H0 as (r0 & -> & Hl0).
    pose proof (process_sensor_cases self a b r0 1 a1 b1 period) as H1.
    rewrite Ha, Hb in H1.
    specialize (H1 ltac:(rewrite Hl0; simpl; lia) eq_refl eq_refl Hg).
    destruct a1 as [x1|]; [destruct b1 as [y1|]|];
      try (rewrite H1, !process_sensor_Raise; reflexivity).
    destruct H1 as (r1 & -> & Hl1).
    pose proof (process_sensor_cases self a b r1 2 a2 b2 period) as H2.
    rewrite Ha, Hb in H2.
    specialize (H2 ltac:(rewrite Hl1, Hl0; simpl; lia) eq_refl eq_refl Hg).
    destruct a2 as [x2|]; [destruct b2 as [y2|]|];
      try (rewrite H2, !process_sensor_Raise; reflexivity).
    destruct H2 as (r2 & -> & Hl2).
    pose proof (process_sensor_cases self a b r2 3 a3 b3 period) as H3.
    rewrite Ha, Hb in H3.
    specialize (H3 ltac:(rewrite Hl2, Hl1, Hl0; simpl; lia) eq_refl eq_refl Hg).
    destruct a3 as [x3|]; [destruct b3 as [y3|]|]; try exact H3.
    exfalso. apply Hsome. repeat split; eauto.
  - intros Hna Hnb Hc. rewrite Ha in Hna. rewrite Hb in Hnb.
    destruct a0 as [x0|]; [|exfalso; apply Hna; apply list_elem_of_here].
    destruct b0 as [y0|]; [|exfalso; apply Hnb; apply list_elem_of_here].
    assert (Hg : py_get PERIODS (BaseStation.channel self) = Raise IndexError).
    { unfold py_get, py_index. simpl length.
      destruct (decide (0 <= BaseStation.channel self < Z.of_nat 16)); [lia|].
      destruct (decide (- Z.of_nat 16 <= BaseStation.channel self < 0)); [lia|].
      reflexivity. }
    unfold BaseStation.process. cbn [fold_left].
    assert (E : BaseStation.process_sensor self a b
                  (Return (Angles.new (BaseStation.channel self))) 0
                = Raise IndexError).
    { unfold BaseStation.process_sensor.
      rewrite bind_Return; cbv beta.
      rewrite (py_get_nonneg (SweepBlock.sensors a) 0 (Some x0))
        by (lia || (rewrite Ha; reflexivity)).
      rewrite bind_Return; cbv beta. rewrite attr_Some.
      rewrite bind_Return; cbv beta.
      rewrite (py_get_nonneg (SweepBlock.sensors b) 0 (Some y0))
        by (lia || (rewrite Hb; reflexivity)).
      rewrite bind_Return; cbv beta. rewrite attr_Some.
      rewrite bind_Return; cbv beta. rewrite Hg. reflexivity. }
    rewrite E, !process_sensor_Raise. reflexivity.
Qed.

Lemma process_raises_witness :
  BaseStation.process (BaseStation.new 3) first_sweep short_block
  = Raise AttributeError /\
  BaseStation.process (BaseStation.new 16) first_sweep second_sweep
  = Raise IndexError.
Proof.
  destruct (process_raises (BaseStation.new 3) first_sweep short_block)
    as [H1 _]; [vm_compute; reflexivity | vm_compute; reflexivity|].
  destruct (process_raises (BaseStation.new 16) first_sweep second_sweep)
    as [_ H2]; [vm_compute; reflexivity | vm_compute; reflexivity|].
  split.
  - apply H1; [|simpl; lia]. right. vm_compute.
    do 3 apply list_elem_of_further. apply list_elem_of_here.
  - apply H2; [| |simpl; lia].
    + rewrite first_sweep_sensors. intros H. elem_cases H; discriminate.
    + rewrite second_sweep_sensors. intros H. elem_cases H; discriminate.
Defined.

(** ** Further properties of the frame decoding *)

Lemma byte_to_Z_range (b : byte) : 0 <= Z.of_N (Byte.to_N b) < 256.
Proof. pose proof (Byte.to_N_bounded b). lia. Qed.

Lemma le_value_range (bs : list byte) :
  0 <= le_value bs < 256 ^ Z.of_nat (length bs).
Proof.
  induction bs as [|b bs IH]; [simpl; lia|].
  change (le_value (b :: bs)) with (Z.of_N (Byte.to_N b) + 256 * le_value bs).
  rewrite length_cons, Nat2Z.inj_succ, Z.pow_succ_r by lia.
  pose proof (byte_to_Z_range b). lia.
Qed.

Lemma le_value_app_zero (bs : list byte) : le_value (bs ++ [x00]) = le_value bs.
Proof.
  induction bs as [|b bs IH]; [reflexivity|].
  change (le_value ((b :: bs) ++ [x00]))
    with (Z.of_N (Byte.to_N b) + 256 * le_value (bs ++ [x00])).
  rewrite IH. reflexivity.
Qed.

(** What [decode] gives for a reading of 12 bytes, from the values of
    its three-byte words. *)
Lemma decode_value (reading : list byte) :
  length reading = 12%nat ->
  let first_word := le_value (take 3 reading) in
  let offset_6 := le_value (take 3 (drop 3 reading)) in
  let identity := Z.land (Z.shiftr first_word 2) 0x1f in
  let nPoly_ok := Z.land (Z.shiftr first_word 7) 0x01 =? 0 in
  decode reading =
  Return {| f_sensor := Z.land first_word 0x03;
            f_timestamp := le_value (drop 9 reading);
            f_width := Z.land (Z.shiftr first_word 8) 0xffff;
            f_offset_6 := offset_6;
            f_offset := offset_6 * 4;
            f_channel := if nPoly_ok then Some (Z.shiftr identity 1) else None;
            f_slow_bit := if nPoly_ok then Some (Z.land identity 1) else None |}.
Proof.
  intros Hlen. cbv zeta. unfold decode.
  rewrite (unpack_I_4 (drop 9 reading ++ [x00]))
    by (rewrite length_app, length_drop, Hlen; reflexivity).
  rewrite bind_Return; cbv beta.
  rewrite (unpack_I_4 (take 3 (drop 6 reading) ++ [x00]))
    by (rewrite length_app, length_take, length_drop, Hlen; reflexivity).
  rewrite bind_Return; cbv beta.
  rewrite (unpack_I_4 (take 3 (drop 3 reading) ++ [x00]))
    by (rewrite length_app, length_take, length_drop, Hlen; reflexivity).
  rewrite bind_Return; cbv beta.
  rewrite (unpack_I_4 (take 3 reading ++ [x00]))
    by (rewrite length_app, length_take, Hlen; reflexivity).
  rewrite bind_Return; cbv beta zeta.
  rewrite !le_value_app_zero.
  destruct (_ =? 0); reflexivity.
Qed.

(** X15: Every decoded frame is in range: a sensor 0..3, a 16-bit width,
    24-bit timestamp and raw offset, the offset four times the raw
    offset, and either no identity or a channel 0..15 with a slow bit
    0 or 1. *)
Theorem decode_ranges (reading : list byte) (f : frame) :
  decode reading = Return f ->
  0 <= f_sensor f < 4 /\
  0 <= f_width f < 65536 /\
  0 <= f_timestamp f < 2 ^ 24 /\
  0 <= f_offset_6 f < 2 ^ 24 /\
  f_offset f = 4 * f_offset_6 f /\
  ((f_channel f = None /\ f_slow_bit f = None) \/
   exists c s, f_channel f = Some c /\ f_slow_bit f = Some s /\
               0 <= c <= 15 /\ 0 <= s <= 1).
Proof.
  intros Hd.
  assert (Hlen : length reading = 12%nat).
  { unfold decode, unpack_I in Hd.
    destruct (decide (length (drop 9 reading ++ [x00]) = 4%nat)) as [H|H];
      [|discriminate].
    rewrite length_app, length_drop in H. simpl in H. lia. }
  rewrite (decode_value reading Hlen) in Hd. cbv zeta in Hd.
  injection Hd as <-. simpl.
  pose proof (le_value_range (drop 9 reading)) as Ht.
  pose proof (le_value_range (take 3 (drop 3 reading))) as Ho.
  rewrite length_drop, Hlen in Ht.
  rewrite length_take, length_drop, Hlen in Ho.
  set (fw := le_value (take 3 reading)).
  split; [apply (land_ones_range fw 2); lia|].
  split; [apply (land_ones_range (Z.shiftr fw 8) 16); lia|].
  split; [exact Ht|]. split; [exact Ho|]. split; [lia|].
  destruct (Z.land (Z.shiftr fw 7) 1 =? 0); [right | left; auto].
  eexists _, _. split; [reflexivity|]. split; [reflexivity|].
  pose proof (land_ones_range (Z.shiftr fw 2) 5 ltac:(lia)) as Hid.
  change (Z.ones 5) with 31 in Hid. change (2 ^ 5) with 32 in Hid.
  split.
  - rewrite Z.shiftr_div_pow2 by lia. change (2 ^ 1) with 2.
    split; [apply Z.div_pos; lia|].
    apply Z.lt_succ_r, Z.div_lt_upper_bound; lia.
  - pose proof (land_ones_range (Z.land (Z.shiftr fw 2) 31) 1 ltac:(lia)) as H1.
    change (Z.ones 1) with 1 in H1. change (2 ^ 1) with 2 in H1. lia.
Qed.

Lemma decode_ranges_witness :
  0 <= 0 < 4 /\ 0 <= 50 < 65536 /\ 0 <= 101000 < 2 ^ 24 /\ 0 <= 0 < 2 ^ 24 /\
  0 = 4 * 0 /\
  ((Some 3 = None /\ Some 1 = None) \/
   exists c s, Some 3 = Some c /\ Some 1 = Some s /\ 0 <= c <= 15 /\ 0 <= s <= 1).
Proof.
  apply (decode_ranges frame_t0 (mkframe 0 101000 50 0 0 (Some 3) (Some 1))).
  vm_compute. reflexivity.
Defined.

Lemma byte_of_value (k : Z) :
  0 <= k < 256 -> Z.of_N (Byte.to_N (byte_of k)) = k.
Proof.
  intros Hk. unfold byte_of.
  destruct (Byte.of_N (Z.to_N k)) as [b|] eqn:E.
  - apply Byte.to_of_N in E. lia.
  - apply Byte.of_N_None_iff in E. lia.
Qed.

Lemma le_value_le_bytes3 (z : Z) :
  0 <= z < 2 ^ 24 -> le_value (le_bytes3 z) = z.
Proof.
  intros Hz. change (2 ^ 24) with 16777216 in Hz.
  unfold le_bytes3, le_value. cbn [fold_right].
  rewrite !byte_of_value by (apply Z.mod_pos_bound; lia).
  Z.div_mod_to_equations. lia.
Qed.

Lemma first_word_fields (sensor identity npoly width : Z) :
  0 <= sensor < 4 -> 0 <= identity < 32 -> 0 <= npoly < 2 ->
  0 <= width < 65536 ->
  let first_word := sensor + 4 * identity + 128 * npoly + 256 * width in
  Z.land first_word 0x03 = sensor /\
  Z.land (Z.shiftr first_word 8) 0xffff = width /\
  Z.land (Z.shiftr first_word 7) 0x01 = npoly /\
  Z.land (Z.shiftr first_word 2) 0x1f = identity.
Proof.
  intros Hs Hi Hn Hw fw.
  change 0x03 with (Z.ones 2). change 0xffff with (Z.ones 16).
  change 0x01 with (Z.ones 1). change 0x1f with (Z.ones 5).
  rewrite !Z.land_ones, !Z.shiftr_div_pow2 by lia.
  change (2 ^ 2) with 4. change (2 ^ 8) with 256. change (2 ^ 16) with 65536.
  change (2 ^ 7) with 128. change (2 ^ 1) with 2. change (2 ^ 5) with 32.
  unfold fw. repeat split; Z.div_mod_to_equations; lia.
Qed.

(** X16: Decoding inverts the frame layout: from the 12 bytes that hold a
    sensor, a 5-bit identity, the poly flag, a width, a raw offset, a
    beam word and a timestamp, [decode] gives these fields back, the
    offset in 24 MHz ticks, with channel [identity / 2] and slow bit
    [identity mod 2] when the poly flag is clear and no identity when it
    is set. *)
Theorem decode_frame_bytes (sensor identity npoly width offset_6 beam_word
    timestamp : Z) :
  0 <= sensor < 4 -> 0 <= identity < 32 -> 0 <= npoly < 2 ->
  0 <= width < 65536 -> 0 <= offset_6 < 2 ^ 24 ->
  0 <= beam_word < 2 ^ 24 -> 0 <= timestamp < 2 ^ 24 ->
  decode (frame_bytes sensor identity npoly width offset_6 beam_word timestamp) =
  Return {| f_sensor := sensor;
            f_timestamp := timestamp;
            f_width := width;
            f_offset_6 := offset_6;
            f_offset := offset_6 * 4;
            f_channel := if npoly =? 0 then Some (identity / 2) else None;
            f_slow_bit := if npoly =? 0 then Some (identity mod 2) else None |}.
Proof.
  intros Hs Hi Hn Hw Ho Hb Ht.
  set (fw := sensor + 4 * identity + 128 * npoly + 256 * width).
  assert (Hfw : 0 <= fw < 2 ^ 24)
    by (change (2 ^ 24) with 16777216; unfold fw; lia).
  rewrite decode_value by reflexivity. cbv zeta.
  change (take 3 (frame_bytes sensor identity npoly width offset_6 beam_word
                    timestamp)) with (le_bytes3 fw).
  change (take 3 (drop 3 (frame_bytes sensor identity npoly width offset_6
                            beam_word timestamp))) with (le_bytes3 offset_6).
  change (drop 9 (frame_bytes sensor identity npoly width offset_6 beam_word
                    timestamp)) with (le_bytes3 timestamp).
  rewrite !le_value_le_bytes3 by assumption.
  destruct (first_word_fields sensor identity npoly width Hs Hi Hn Hw)
    as (E1 & E2 & E3 & E4).
  fold fw in E1, E2, E3, E4. rewrite E1, E2, E3, E4.
  rewrite Z.shiftr_div_pow2 by lia. change (2 ^ 1) with 2.
  replace (Z.land identity 1) with (identity mod 2);
    [reflexivity|].
  change 1 with (Z.ones 1). rewrite Z.land_ones by lia. reflexivity.
Qed.

Lemma decode_frame_bytes_witness :
  decode (frame_bytes 1 7 0 52 1000 0 1010) =
  Return {| f_sensor := 1; f_timestamp := 1010; f_width := 52;
            f_offset_6 := 1000; f_offset := 1000 * 4;
            f_channel := if 0 =? 0 then Some (7 / 2) else None;
            f_slow_bit := if 0 =? 0 then Some (7 mod 2) else None |}.
Proof. apply (decode_frame_bytes 1 7 0 52 1000 0 1010); lia. Defined.

(** ** Further properties of the main loop *)

(** X17: A frame whose raw offset is [0xffffff] is a sync frame: the loop
    body leaves the state as it was and prints nothing, whatever the
    other nine bytes are. *)
Theorem main_step_sync (st : main_state) (reading : list byte) :
  length reading = 12%nat ->
  take 3 (drop 3 reading) = [xff; xff; xff] ->
  main_step st reading = (st, Return None).
Proof.
  intros Hlen Hoff. unfold main_step.
  rewrite (decode_value reading Hlen). cbv zeta. rewrite Hoff.
  cbn [f_offset_6].
  destruct (decide (le_value [xff; xff; xff] = 16777215)) as [_|Hn];
    [reflexivity|].
  exfalso. apply Hn. vm_compute. reflexivity.
Qed.

Lemma main_step_sync_witness :
  main_step main_init
    [x1c; x32; x00;  xff; xff; xff;  x00; x00; x00;  xe8; x03; x00]
  = (main_init, Return None).
Proof.
  apply (main_step_sync main_init
           [x1c; x32; x00;  xff; xff; xff;  x00; x00; x00;  xe8; x03; x00]);
    reflexivity.
Defined.



Lemma base_push_angles (self : BaseStation.t) (block : SweepBlock.t)
    (r : Angles.t) :
  0 <= BaseStation.channel self < 16 ->
  (forall p, BaseStation.prev_block self = Some p -> pairable p) ->
  pairable block ->
  snd (BaseStation.push self block) = Return (Some r) ->
  angles_full r.
Proof.
  intros Hc Hprev Hb. unfold BaseStation.push.
  destruct (decide _) as [_|_]; [discriminate|].
  destruct (BaseStation.prev_block self) as [p|] eqn:Ep; [|discriminate].
  specialize (Hprev p eq_refl).
  destruct (pairable_offset p Hprev) as (oa & ta & Hoa & Hta).
  destruct (pairable_offset block Hb) as (ob & tb & Hob & Htb).
  rewrite (is_second_sweep_value p block oa ob ta tb) by assumption.
  destruct Hprev as (a0 & a1 & a2 & a3 & _ & Ha & _).
  destruct Hb as (b0 & b1 & b2 & b3 & _ & Hbs & _).
  destruct (periods_get _ Hc) as (period & _ & Hg).
  rewrite (process_returns self p block _ _ _ _ _ _ _ _ period Hg Ha Hbs).
  destruct (if decide (oa > ob) then false
            else if decide (ts_sub tb ta > 220000) then false else true);
    [|discriminate].
  simpl. intros H. injection H as <-. split; [simpl; lia|].
  simpl. eauto.
Qed.

Lemma route_angles (stations : list BaseStation.t) (block : SweepBlock.t)
    (r : Angles.t) :
  stations_inv stations -> valid_block block -> pairable block ->
  snd (route stations block) = Return (Some r) -> angles_full r.
Proof.
  intros [Hlen Hst] (_ & c & s0 & s1 & s2 & s3 & Hc & Hch & _) Hb.
  unfold route. rewrite Hch, Hlen, py_index_nonneg by (simpl; lia).
  destruct (stations !! Z.to_nat c) as [bs|] eqn:El; [|discriminate].
  destruct (Hst _ _ El) as [Hbc Hbp].
  pose proof (base_push_angles bs block r) as Hpush.
  destruct (BaseStation.push bs block) as [bs' r']. simpl in *.
  intros ->. apply Hpush; [lia | exact Hbp | exact Hb | reflexivity].
Qed.

Lemma main_step_angles (st : main_state) (reading : list byte) (r : Angles.t) :
  fed (pulse_processor st) -> stations_inv (base_stations st) ->
  snd (main_step st reading) = Return (Some r) -> angles_full r.
Proof.
  intros Hfed Hst. unfold main_step.
  destruct (decode reading) as [f|e] eqn:Hd; [|discriminate].
  destruct (decide _) as [_|_]; [discriminate|].
  pose proof (fed_inv _ Hfed) as Hinv.
  pose proof (decode_fields _ _ Hd) as [Hs _].
  assert (Hl4 : forall b0, PulseProcessor.block (pulse_processor st) = Some b0 ->
                           length (SweepBlock.sensors b0) = 4%nat).
  { intros b0 Hb0. unfold open_block_inv in Hinv. rewrite Hb0 in Hinv.
    apply Hinv. }
  pose proof (pulse_push_result (pulse_processor st) (f_sensor f) (f_timestamp f)
                (f_width f) (f_offset f) (f_channel f) (f_slow_bit f) Hs Hl4)
    as Hres.
  destruct (PulseProcessor.push _ _ _ _ _ _ _) as [pp r0]. simpl in Hres.
  subst r0.
  destruct (snd (PulseProcessor.close_block (pulse_processor st) (f_timestamp f)))
    as [block|] eqn:Ec; [|discriminate].
  apply close_block_result in Ec as (_ & b0 & Hb0 & Hp).
  unfold open_block_inv in Hinv. rewrite Hb0 in Hinv.
  destruct Hinv as (Hl & Hun & Hok).
  pose proof (route_angles (base_stations st) block r Hst
                (process_valid b0 block Hl Hun Hok Hp)
                (process_pairable b0 block Hl Hp)) as Hroute.
  destruct (route (base_stations st) block) as [l' r']. simpl in *.
  exact Hroute.
Qed.

(** X20: Every angle result that the main loop prints, from its initial
    state and on any stream, holds a pair of angles for each of the four
    sensors and a channel 0..15. *)
Theorem main_loop_angles (stream : list (list byte)) :
  Forall angles_full (snd (fst (main_loop main_init stream))).
Proof.
  assert (G : forall st, fed (pulse_processor st) ->
                stations_inv (base_stations st) ->
                Forall angles_full (snd (fst (main_loop st stream)))).
  { induction stream as [|reading rest IH]; intros st Hfed Hst;
      [constructor|].
    simpl. destruct (decide (length reading = 12%nat)) as [Hlen|_];
      [|constructor].
    pose proof (main_step_fed st reading Hlen Hfed) as Hfed'.
    pose proof (main_step_angles st reading) as Hang.
    destruct (main_step_returns st reading Hlen Hfed Hst) as (st' & r & E & Hst').
    rewrite E in Hfed', Hang |- *. simpl in Hfed', Hang.
    specialize (IH st' Hfed' Hst').
    destruct (main_loop st' rest) as [[st'' outs] e]. simpl in *.
    destruct r as [a|]; [|exact IH].
    constructor; [|exact IH]. apply Hang; auto. }
  apply G; [apply fed_new | apply main_init_stations].
Qed.

(** ** The synchronisation scan *)

Lemma window_nil (buf : list byte) : window buf [] = buf.
Proof. unfold window. simpl. rewrite app_nil_r. apply drop_0. Qed.

Lemma window_cons (buf c : list byte) (b : byte) :
  buf <> [] -> window buf (b :: c) = window (drop 1 (buf ++ [b])) c.
Proof.
  intros Hne. unfold window. destruct buf as [|x buf]; [contradiction|].
  simpl. rewrite drop_0, <- app_assoc. reflexivity.
Qed.

Lemma sync_scan_spec (src buf : list byte) :
  length buf = 12%nat ->
  match sync_scan buf src with
  | Some rest =>
      exists c, src = c ++ rest /\ window buf c = sync /\
        forall c' k, c = c' ++ k -> k <> [] -> window buf c' <> sync
  | None => forall c k, src = c ++ k -> window buf c <> sync
  end.
Proof.
  revert buf. induction src as [|b src IH]; intros buf Hlen.
  - simpl. destruct (decide (sync = buf)) as [E|E].
    + exists []. split; [reflexivity|]. split.
      * rewrite window_nil. symmetry. exact E.
      * intros c' k Hc Hk. symmetry in Hc.
        apply app_eq_nil in Hc as [_ ->]. contradiction.
    + intros c k Hc. symmetry in Hc. apply app_eq_nil in Hc as [-> _].
      rewrite window_nil. congruence.
  - simpl. destruct (decide (sync = buf)) as [E|E].
    + exists []. split; [reflexivity|]. split.
      * rewrite window_nil. symmetry. exact E.
      * intros c' k Hc Hk. symmetry in Hc.
        apply app_eq_nil in Hc as [_ ->]. contradiction.
    + assert (Hne : buf <> []) by (intros ->; discriminate).
      assert (Hlen' : length (drop 1 (buf ++ [b])) = 12%nat)
        by (rewrite length_drop, length_app, Hlen; reflexivity).
      specialize (IH (drop 1 (buf ++ [b])) Hlen').
      destruct (sync_scan (drop 1 (buf ++ [b])) src) as [rest|].
      * destruct IH as (c & -> & Hw & Hearly).
        exists (b :: c). split; [reflexivity|].
        split; [rewrite window_cons by exact Hne; exact Hw|].
        intros c' k Hc Hk. destruct c' as [|b' c'].
        -- rewrite window_nil. congruence.
        -- simpl in Hc. injection Hc as <- Hc.
           rewrite window_cons by exact Hne. exact (Hearly c' k Hc Hk).
      * intros c k Hc. destruct c as [|b' c].
        -- rewrite window_nil. congruence.
        -- simpl in Hc. injection Hc as <- Hc.
           rewrite window_cons by exact Hne. exact (IH c k Hc).
Qed.

Lemma window_zeros (c : list byte) :
  window (replicate 12 x00) c = sync <-> exists pre, c = pre ++ sync.
Proof.
  unfold window. split.
  - intros H. destruct (decide (length c < 12)%nat) as [Hlt|Hge].
    + exfalso. rewrite drop_app_le in H by (rewrite length_replicate; lia).
      rewrite drop_replicate in H.
      destruct (12 - length c)%nat as [|n] eqn:En; [lia|].
      simpl in H. discriminate.
    + rewrite drop_app_ge in H by (rewrite length_replicate; lia).
      rewrite length_replicate in H.
      exists (take (length c - 12) c).
      rewrite <- H. symmetry. apply take_drop.
  - intros [pre ->]. rewrite app_assoc, drop_app_length'; [reflexivity|].
    rewrite !length_app, length_replicate. simpl. lia.
Qed.

(** X21: The scan finds the first run of twelve [0xff] bytes: it returns the
    bytes after the earliest place where twelve [0xff] in a row end, and
    it ends the program exactly when the source holds no such run. *)
Theorem find_sync_first (src : list byte) :
  match find_sync src with
  | Some rest =>
      exists pre, src = pre ++ sync ++ rest /\
        forall p q, src = p ++ sync ++ q -> (length pre <= length p)%nat
  | None => forall p q, src <> p ++ sync ++ q
  end.
Proof.
  unfold find_sync. change (length sync) with 12%nat.
  pose proof (sync_scan_spec src (replicate 12 x00) eq_refl) as H.
  destruct (sync_scan (replicate 12 x00) src) as [rest|].
  - destruct H as (c & -> & Hw & Hearly).
    apply window_zeros in Hw as [pre ->].
    exists pre. split; [rewrite <- app_assoc; reflexivity|].
    intros p q Hpq.
    destruct (decide (length pre <= length p)%nat) as [Hle|Hgt]; [exact Hle|].
    exfalso.
    assert (Hsplit : pre ++ sync = (p ++ sync) ++ drop (length p + 12) (pre ++ sync)
                     /\ drop (length p + 12) (pre ++ sync) <> []).
    { assert (Htake : take (length p + 12) ((pre ++ sync) ++ rest) = p ++ sync).
      { rewrite Hpq, app_assoc, take_app_length'; [reflexivity|].
        rewrite length_app. reflexivity. }
      rewrite take_app_le in Htake by (rewrite length_app; simpl; lia).
      rewrite <- Htake, take_drop. split; [reflexivity|].
      intros Hnil. apply (f_equal length) in Hnil.
      rewrite length_drop, length_app in Hnil. simpl in Hnil. lia. }
    destruct Hsplit as [Hs Hk].
    apply (Hearly (p ++ sync) _ Hs Hk). apply window_zeros. eauto.
  - intros p q Hpq. apply (H (p ++ sync) q).
    + rewrite Hpq, app_assoc. reflexivity.
    + apply window_zeros. eauto.
Qed.

Lemma find_sync_first_witness :
  exists pre, synced_stream = pre ++ sync ++ [x02; x03] /\
    forall p q, synced_stream = p ++ sync ++ q -> (length pre <= length p)%nat.
Proof.
  pose proof (find_sync_first synced_stream) as H.
  change (find_sync synced_stream) with (Some [x02; x03]) in H.
  exact H.
Defined.

(** ** Pulses of one window *)

Lemma pulse_push_put (self : PulseProcessor.t) (b : SweepBlock.t) (p : pulse) :
  ts_sub (pulse_ts p) (PulseProcessor.latest_pulse self) <= 10000 ->
  PulseProcessor.block self = Some b ->
  0 <= pulse_sensor p ->
  SweepBlock.sensors b !! Z.to_nat (pulse_sensor p) = Some None ->
  feed_pulses self [p]
  = {| PulseProcessor.block := Some (push_all b [p]);
       PulseProcessor.latest_pulse := pulse_ts p |}.
Proof.
  destruct p as [[[[[sensor ts] width] offset] channel] slow_bit]. simpl.
  intros Hgap Hb Hs Hl. pose proof (lookup_lt_Some _ _ _ Hl) as Hlt.
  unfold feed_pulses, push_all. simpl.
  unfold PulseProcessor.push, PulseProcessor.close_block.
  destruct (decide (ts_sub ts (PulseProcessor.latest_pulse self) > 10000));
    [lia|].
  rewrite Hb. unfold SweepBlock.push.
  rewrite py_index_nonneg by lia. rewrite bind_Return, Hl. reflexivity.
Qed.

(** X10: Pushes within one window compose: pulses that follow one another by
    at most 10000 ticks, each for a slot still empty, leave the open
    block filled as by the pushes on the block itself, in any order of
    the sensors, and the latest pulse is the last one. *)
Theorem feed_pulses_window (ps : list pulse) (self : PulseProcessor.t)
    (b : SweepBlock.t) :
  PulseProcessor.block self = Some b ->
  in_window (PulseProcessor.latest_pulse self) ps ->
  slots_free b ps ->
  feed_pulses self ps
  = {| PulseProcessor.block := Some (push_all b ps);
       PulseProcessor.latest_pulse :=
         fold_left (fun _ p => pulse_ts p) ps (PulseProcessor.latest_pulse self) |}.
Proof.
  revert self b. induction ps as [|p ps IH]; intros self b Hb Hw Hf.
  - simpl. destruct self as [blk t]. simpl in *. rewrite Hb. reflexivity.
  - destruct Hw as [Hgap Hw]. destruct Hf as (Hs & Hl & Hf).
    pose proof (pulse_push_put self b p Hgap Hb Hs Hl) as Hstep.
    change (feed_pulses self (p :: ps))
      with (feed_pulses (feed_pulses self [p]) ps).
    rewrite Hstep.
    rewrite (IH _ (push_all b [p])); [reflexivity | reflexivity | exact Hw | exact Hf].
Qed.

Lemma feed_pulses_window_witness :
  feed_pulses
    (PulseProcessor.mk
       (Some (push_all SweepBlock.new [(2, 995, 49, 0, None, None)])) 995)
    [(0, 1000, 50, 0, Some 3, Some 1);
     (1, 1010, 52, 4000, Some 3, Some 1);
     (3, 1020, 51, 0, Some 3, Some 1)]
  = PulseProcessor.mk (Some good_block) 1020.
Proof.
  apply (feed_pulses_window
           [(0, 1000, 50, 0, Some 3, Some 1);
            (1, 1010, 52, 4000, Some 3, Some 1);
            (3, 1020, 51, 0, Some 3, Some 1)]
           (PulseProcessor.mk
              (Some (push_all SweepBlock.new [(2, 995, 49, 0, None, None)])) 995)
           (push_all SweepBlock.new [(2, 995, 49, 0, None, None)])).
  - reflexivity.
  - simpl. repeat split; vm_compute; discriminate.
  - simpl. repeat split; try lia; vm_compute; reflexivity.
Defined.

(** ** The range of the angles *)

(** X14: The elevation of every pair of beams lies strictly between
    -pi/2 and pi/2, and for two offsets within one period, of a positive
    period, the azimuth of their beams lies in [-pi, pi). *)
Theorem calculateAE_range (firstBeam secondBeam period : R)
    (offset0 offset1 : Z) :
  (- PI / 2 < snd (calculateAE firstBeam secondBeam) < PI / 2)%R /\
  ((0 < period)%R ->
   (0 <= IZR offset0 < period)%R ->
   (0 <= IZR offset1 < period)%R ->
   (- PI <= fst (calculateAE (beam period offset0) (beam period offset1))
    < PI)%R).
Proof.
  split.
  - unfold calculateAE. simpl.
    pose proof (atan_bound
                  (sin ((secondBeam - firstBeam - radians 120) / 2)
                   / tan (radians 60 / 2))) as Hb.
    lra.
  - intros Hp H0 H1.
    assert (Hbeam : forall o : Z, (0 <= IZR o < period)%R ->
                                  (0 <= beam period o < 2 * PI)%R).
    { intros o [Hlo Hhi]. unfold beam. pose proof PI_RGT_0 as Hpi.
      assert (Hq : (0 <= IZR o / period < 1)%R).
      { split.
        - apply Rmult_le_pos; [exact Hlo|]. left. apply Rinv_0_lt_compat.
          exact Hp.
        - apply (Rmult_lt_reg_r period); [exact Hp|].
          unfold Rdiv. rewrite Rmult_assoc, Rinv_l by lra. lra. }
      split; nra. }
    pose proof (Hbeam offset0 H0) as B0. pose proof (Hbeam offset1 H1) as B1.
    unfold calculateAE. simpl. lra.
Qed.

Lemma calculateAE_range_witness :
  (- PI / 2
   < snd (calculateAE (beam (949000 / 2) 3990) (beam (949000 / 2) 16777210))
   < PI / 2)%R /\
  (- PI <= fst (calculateAE (beam (949000 / 2) 3990) (beam (949000 / 2) 103990))
   < PI)%R.
Proof.
  split.
  - apply (calculateAE_range (beam (949000 / 2) 3990)
             (beam (949000 / 2) 16777210) 1 0 0).
  - apply (calculateAE_range 0 0 (949000 / 2) 3990 103990); lra.
Defined.
